(** * Assistant-Backend: the conversation-correlation engine

    A shallow embedding of the Telegram side of the email assistant:

    - [TelegramParser]: utils/telegramParser.js
      ([parseNumberedAnswers], [matchAnswersToQuestions]);
    - [EmailState]: services/email-state.js ([EmailStateManager]);
    - [Polling]: services/telegram/polling.js ([pollOnce], [getUpdates]);
    - [Routes]: routes/telegram.js (POST /webhook and
      POST /send-email-questions) with controllers/telegram.js and
      [sendMessage] of services/telegram/index.js;
    - [TelegramFormat]: the rest of utils/telegramParser.js
      ([formatNumberedQuestions], [convertQFormatToNumbered]);
    - [PollingStart]: [startPolling] and the query of [getUpdates];
    - [Controller]: [handleCommandMessage] of controllers/telegram.js.

    JavaScript strings are sequences of UTF-16 code units, JavaScript
    values are a small tagged union, objects used as dictionaries are
    finite maps and a [Map] is an insertion-ordered association list.
    Numbers that the code only uses as integers (question numbers, chat
    ids, millisecond time stamps) are in [Z]; this is exact up to
    [Number.MAX_SAFE_INTEGER] = 2^53 - 1, above which JavaScript rounds
    to a double.  The back-off delay, which the code multiplies by 1.5
    and perturbs by a random jitter, is a rational in [Q]. *)

From Stdlib Require Import ZArith NArith QArith Qminmax Lia Lqa List.
From Stdlib Require Import Strings.String Strings.Ascii Numbers.DecimalString.
From Stdlib Require Import DecimalPos Qround.
From stdpp Require Import base decidable option list gmap.

Close Scope Q_scope.
Close Scope string_scope.
Local Open Scope list_scope.

(* ================================================================= *)
(** ** JavaScript values and strings *)

Module JS.

(** A UTF-16 code unit. *)
Definition jschar := N.
Definition jsstring := list jschar.

(** ASCII literals: every ASCII character is its own code unit. *)
Definition js (s : string) : jsstring :=
  List.map N_of_ascii (list_ascii_of_string s).

(** The values a chat id, a message text or a parser argument can take
    when it comes out of a JSON document. *)
Inductive jsval :=
| JUndefined
| JNull
| JBool (b : bool)
| JNum (n : Z)
| JStr (s : jsstring).

#[global] Instance jsval_eq_dec : EqDecision jsval.
Proof. solve_decision. Defined.

(** [ToBoolean]: what [!x] negates. *)
Definition truthy (v : jsval) : bool :=
  match v with
  | JUndefined | JNull => false
  | JBool b => b
  | JNum n => negb (n =? 0)%Z
  | JStr s => match s with [] => false | _ :: _ => true end
  end.

Definition nonempty (s : jsstring) : bool :=
  match s with [] => false | _ :: _ => true end.

(** [x || d] on a property that is either undefined or a string. *)
Definition or_default (x : option jsstring) (d : jsstring) : jsstring :=
  match x with
  | Some (c :: s) => c :: s
  | _ => d
  end.

Definition truthy_field (x : option jsstring) : bool :=
  match x with Some (_ :: _) => true | _ => false end.

(** Decimal digits of an integer, as [String(n)] prints them.  This is
    the printed form of a number below 10^21 in absolute value; from
    there on JavaScript prints an exponent, and a statement that
    depends on the printed form of a number bounds it by
    [MAX_SAFE_INTEGER]. *)
Definition Z_to_js (n : Z) : jsstring :=
  js (DecimalString.NilZero.string_of_int (Z.to_int n)).

(** [String(v)]. *)
Definition String_ (v : jsval) : jsstring :=
  match v with
  | JUndefined => js "undefined"
  | JNull => js "null"
  | JBool true => js "true"
  | JBool false => js "false"
  | JNum n => Z_to_js n
  | JStr s => s
  end.

(** Character classes of ECMAScript regular expressions (no [u], [s] or
    [m] flag). *)
Definition is_digit (c : jschar) : bool := ((48 <=? c) && (c <=? 57))%N.

Definition is_line_terminator (c : jschar) : bool :=
  ((c =? 10) || (c =? 13) || (c =? 8232) || (c =? 8233))%N.

(** [\s], which is also what [String.prototype.trim] strips: WhiteSpace
    and LineTerminator. *)
Definition is_space (c : jschar) : bool :=
  ((c =? 9) || (c =? 10) || (c =? 11) || (c =? 12) || (c =? 13) || (c =? 32)
   || (c =? 160) || (c =? 5760) || ((8192 <=? c) && (c <=? 8202))
   || (c =? 8232) || (c =? 8233) || (c =? 8239) || (c =? 8287)
   || (c =? 12288) || (c =? 65279))%N.

(** [.] *)
Definition is_dot (c : jschar) : bool := negb (is_line_terminator c).

Fixpoint takeWhile (p : jschar -> bool) (s : jsstring) : jsstring :=
  match s with
  | c :: s' => if p c then c :: takeWhile p s' else []
  | [] => []
  end.

Fixpoint dropWhile (p : jschar -> bool) (s : jsstring) : jsstring :=
  match s with
  | c :: s' => if p c then dropWhile p s' else s
  | [] => []
  end.

Definition trimStart (s : jsstring) : jsstring := dropWhile is_space s.
Definition trimEnd (s : jsstring) : jsstring :=
  rev (dropWhile is_space (rev s)).
Definition trim (s : jsstring) : jsstring := trimEnd (trimStart s).

(** [s.split('\n')]: never empty, [""] splits into [[""]]. *)
Fixpoint split_lines (s : jsstring) : list jsstring :=
  match s with
  | [] => [[]]
  | c :: s' =>
      if (c =? 10)%N then [] :: split_lines s'
      else match split_lines s' with
           | l :: ls => (c :: l) :: ls
           | [] => [[c]]
           end
  end.

Definition startsWith_slash (s : jsstring) : bool :=
  match s with
  | c :: _ => (c =? 47)%N
  | [] => false
  end.

Fixpoint digits_value_from (acc : Z) (ds : jsstring) : Z :=
  match ds with
  | [] => acc
  | d :: ds' => digits_value_from (10 * acc + (Z.of_N d - 48)) ds'
  end.

(** The number a run of decimal digits denotes. *)
Definition digits_value (ds : jsstring) : Z := digits_value_from 0 ds.

(** [parseInt(s, 10)]: leading white space, an optional sign, then the
    longest run of digits; [None] is [NaN]. *)
Definition parseInt10 (s : jsstring) : option Z :=
  let s1 := trimStart s in
  let '(sign, s2) :=
    match s1 with
    | c :: r =>
        if (c =? 45)%N then ((-1)%Z, r)       (* - *)
        else if (c =? 43)%N then (1%Z, r)     (* + *)
        else (1%Z, s1)
    | [] => (1%Z, s1)
    end in
  match takeWhile is_digit s2 with
  | [] => None
  | ds => Some (sign * digits_value ds)%Z
  end.

End JS.

Export JS.

(* ================================================================= *)
(** ** Backtracking matcher for the constructs of the answer pattern *)

Module Regex.

Section Matcher.
Context {A : Type}.

(** A continuation receives the rest of the input; [None] makes the
    matcher backtrack into the last choice point. *)
Definition cont := jsstring -> option A.

(** [p*], greedy: the longest run first, then one character less. *)
Fixpoint star (p : jschar -> bool) (s : jsstring) (k : cont) : option A :=
  match s with
  | c :: s' =>
      if p c then
        match star p s' k with
        | Some r => Some r
        | None => k s
        end
      else k s
  | [] => k []
  end.

(** [p+], greedy. *)
Definition plus (p : jschar -> bool) (s : jsstring) (k : cont) : option A :=
  match s with
  | c :: s' => if p c then star p s' k else None
  | [] => None
  end.

(** [(?:r)?], greedy: with [r] first, then without. *)
Definition opt (r : jsstring -> cont -> option A) (s : jsstring) (k : cont)
  : option A :=
  match r s k with
  | Some x => Some x
  | None => k s
  end.

(** [$] without the [m] flag: the end of the input. *)
Definition eoi (s : jsstring) (k : cont) : option A :=
  match s with
  | [] => k []
  | _ :: _ => None
  end.

End Matcher.

(** What a group captured: the part of [s] consumed before [rest]. *)
Definition capture (s rest : jsstring) : jsstring :=
  take (length s - length rest) s.

End Regex.

(* ================================================================= *)
(** ** utils/telegramParser.js *)

Module TelegramParser.
Import Regex.

(** A parsed answer set: the object [answers], keyed by question number. *)
Abbreviation AnswerSet := (gmap Z jsstring).

(** The result of correlation: an object keyed by question text. *)
Abbreviation CorrelatedAnswers := (gmap jsstring jsstring).

(** The separator class [[.:\-\)\s]]. *)
Definition is_sep (c : jschar) : bool :=
  ((c =? 46) || (c =? 58) || (c =? 45) || (c =? 41))%N || is_space c.

(** [t.match(/^(\d+)(?:[.:\-\)\s]+)?\s*(.+)$/)]: the two captures. *)
Definition answer_pattern (t : jsstring) : option (jsstring * jsstring) :=
  plus is_digit t (fun r1 =>
  opt (plus is_sep) r1 (fun r2 =>
  star is_space r2 (fun r3 =>
  plus is_dot r3 (fun r4 =>
  eoi r4 (fun _ => Some (capture t r1, capture r3 r4)))))).

(** The body of the [for (const line of lines)] loop. *)
Definition parse_line (answers : AnswerSet) (line : jsstring) : AnswerSet :=
  if negb (nonempty (trim line)) then answers
  else
    match answer_pattern (trim line) with
    | Some (m1, m2) =>
        match parseInt10 m1 with
        | Some questionNumber =>
            let answer := trim m2 in
            if nonempty answer then <[questionNumber := answer]> answers
            else answers
        | None => answers
        end
    | None => answers
    end.

Definition parseNumberedAnswers (messageText : jsval) : AnswerSet :=
  match messageText with
  | JStr (c :: s) => fold_left parse_line (split_lines (c :: s)) ∅
  | _ => ∅
  end.

(** [o[key] = value] on an object literal, for a string [value]: the
    key ["__proto__"] reaches the setter inherited from
    [Object.prototype], which ignores a value that is not an object, so
    no property is created; every other key becomes an own property. *)
Definition set_property (key value : jsstring) (o : CorrelatedAnswers)
  : CorrelatedAnswers :=
  if decide (key = js "__proto__") then o else <[key := value]> o.

(** [questions.forEach((question, index) => ...)], from [index] on. *)
Fixpoint match_from (answers : AnswerSet) (index : nat)
  (questions : list jsstring) (matchedResult : CorrelatedAnswers)
  : CorrelatedAnswers :=
  match questions with
  | [] => matchedResult
  | question :: rest =>
      let answerNumber := (Z.of_nat index + 1)%Z in
      match_from answers (S index) rest
        (match answers !! answerNumber with
         | Some a =>
             if nonempty a then set_property question a matchedResult
             else matchedResult
         | None => matchedResult
         end)
  end.

(** [questions] is [None] when the argument is not an array, [answers]
    is [None] when it is null, undefined or not an object. *)
Definition matchAnswersToQuestions (questions : option (list jsstring))
  (answers : option AnswerSet) : CorrelatedAnswers :=
  match questions, answers with
  | Some (q :: qs), Some a => match_from a 0 (q :: qs) ∅
  | _, _ => ∅
  end.

End TelegramParser.

Import TelegramParser.

(* ================================================================= *)
(** ** A JavaScript [Map]: an association list in insertion order *)

Module JsMap.

Section Ops.
Context {K V : Type} `{EqDecision K}.

(** [m.get(k)] *)
Fixpoint mget (k : K) (m : list (K * V)) : option V :=
  match m with
  | [] => None
  | (k', v) :: m' => if decide (k = k') then Some v else mget k m'
  end.

(** [m.set(k, v)]: an existing key keeps its position. *)
Fixpoint mset (k : K) (v : V) (m : list (K * V)) : list (K * V) :=
  match m with
  | [] => [(k, v)]
  | (k', v') :: m' =>
      if decide (k = k') then (k, v) :: m' else (k', v') :: mset k v m'
  end.

(** [m.delete(k)] *)
Fixpoint mdelete (k : K) (m : list (K * V)) : list (K * V) :=
  match m with
  | [] => []
  | (k', v') :: m' =>
      if decide (k = k') then mdelete k m' else (k', v') :: mdelete k m'
  end.

Definition keys (m : list (K * V)) : list K := List.map fst m.

End Ops.

End JsMap.

Import JsMap.

(** The email of a conversation; a field is [None] when the property is
    undefined. *)
Record Email := mkEmail {
  subject : option jsstring;
  body : option jsstring;
  sender : option jsstring;
  threadId : option jsstring
}.

(* ================================================================= *)
(** ** services/email-state.js *)

Module EmailState.

(** Email data objects live in a heap and the map holds references to
    them: [storeEmail] writes the time stamp into the caller's object. *)
Definition ref := N.

Record EmailData := mkEmailData {
  originalEmail : option Email;
  questions : list jsstring;
  timestamp : option Z
}.

Record State := mkState {
  activeEmails : list (jsstring * ref);
  heap : gmap ref EmailData
}.


Definition stamp (now : Z) (d : EmailData) : EmailData :=
  mkEmailData (originalEmail d) (questions d) (Some now).

(** [emailData] is [None] for null or undefined, and a reference to an
    object otherwise. *)
Definition storeEmail (now : Z) (chatId : jsval) (emailData : option ref)
  (st : State) : State :=
  match emailData with
  | None => st
  | Some r =>
      if negb (truthy chatId) then st
      else mkState (mset (String_ chatId) r (activeEmails st))
                   (alter (stamp now) r (heap st))
  end.

(** 24 hours in milliseconds. *)
Definition expiryTime : Z := 24 * 60 * 60 * 1000.

(** [emailData.timestamp] of the object at [r]. *)
Definition timestamp_of (st : State) (r : ref) : option Z :=
  match heap st !! r with
  | Some d => timestamp d
  | None => None
  end.

(** [now - emailData.timestamp > expiryTime]; a missing time stamp
    makes the difference [NaN], and the comparison false. *)
Definition expired (now : Z) (st : State) (r : ref) : bool :=
  match timestamp_of st r with
  | Some ts => (now - ts >? expiryTime)%Z
  | None => false
  end.

Definition getEmail (now : Z) (chatId : jsval) (st : State)
  : option ref * State :=
  if negb (truthy chatId) then (None, st)
  else
    match mget (String_ chatId) (activeEmails st) with
    | None => (None, st)
    | Some r =>
        if expired now st r
        then (None, mkState (mdelete (String_ chatId) (activeEmails st))
                            (heap st))
        else (Some r, st)
    end.

Definition clearEmail (chatId : jsval) (st : State) : State :=
  if negb (truthy chatId) then st
  else mkState (mdelete (String_ chatId) (activeEmails st)) (heap st).

Record Summary := mkSummary {
  s_chatId : jsstring;
  s_subject : option jsstring;
  s_timestamp : option Z;
  s_age : option Z
}.

(** [Math.round(ms / (60 * 1000))] on an integer number of
    milliseconds: halves round up. *)
Definition round_minutes (ms : Z) : Z := ((2 * ms + 60000) / 120000)%Z.

(** [value.originalEmail?.subject] *)
Definition subject_of (st : State) (r : ref) : option jsstring :=
  match heap st !! r with
  | Some d => match originalEmail d with
              | Some e => subject e
              | None => None
              end
  | None => None
  end.

Definition summary (now : Z) (st : State) (e : jsstring * ref) : Summary :=
  mkSummary e.1
            (subject_of st e.2)
            (timestamp_of st e.2)
            (match timestamp_of st e.2 with
             | Some ts => Some (round_minutes (now - ts))
             | None => None
             end).

Definition listActiveEmails (now : Z) (st : State) : list Summary :=
  List.map (summary now st) (activeEmails st).

(** The calls a client of the manager can make. *)
Inductive op :=
| OpStore (now : Z) (chatId : jsval) (emailData : option ref)
| OpGet (now : Z) (chatId : jsval)
| OpClear (chatId : jsval).

Definition exec (st : State) (o : op) : State :=
  match o with
  | OpStore now c d => storeEmail now c d st
  | OpGet now c => (getEmail now c st).2
  | OpClear c => clearEmail c st
  end.

End EmailState.

(* ================================================================= *)
(** ** Telegram updates *)

Record Message := mkMessage {
  chat_id : jsval;          (* message.chat?.id *)
  text : option jsstring;   (* message.text *)
  from_id : jsval           (* message.from?.id *)
}.

Record Update := mkUpdate {
  update_id : Z;
  message : option Message
}.

(** A thrown value, as a catch clause sees it.  Reading [error.message]
    of a thrown [null] or [undefined] is itself a [TypeError]; every
    other value is read like an error object. *)
Inductive Thrown := ErrorObject (message : jsstring) | Nullish.

Definition type_error : Thrown :=
  ErrorObject (js "Cannot read properties of undefined (reading 'message')").

(* ================================================================= *)
(** ** services/telegram/polling.js *)

Module Polling.

Fixpoint prefix_of (p s : jsstring) : bool :=
  match p, s with
  | [], _ => true
  | _ :: _, [] => false
  | a :: p', b :: s' => (a =? b)%N && prefix_of p' s'
  end.

(** [s.includes(needle)] *)
Fixpoint includes (needle s : jsstring) : bool :=
  prefix_of needle s ||
  match s with
  | [] => false
  | _ :: s' => includes needle s'
  end.

Definition conflict_text : jsstring :=
  js "Conflict: terminated by other getUpdates request".

(** [error.message && error.message.includes('Conflict: ...')] *)
Definition is_conflict (message : jsstring) : bool :=
  nonempty message && includes conflict_text message.

(** The module-level variables. *)
Record PollState := mkPoll {
  lastUpdateId : Z;
  isPollingActive : bool;
  retryCount : Z;
  retryDelay : Q
}.

(** The state when the module is loaded and [startPolling] has set the
    active flag. *)
Definition started : PollState := mkPoll 0 true 0 5000%Q.

(** What the request to the provider comes to: an [Error] with a
    message (network failure, [!response.ok], [!data.ok]) or
    [data.result]. *)
Inductive Fetch :=
| FetchThrows (message : jsstring)
| FetchResult (updates : list Update).

(** [Math.max(...ids)] of a non-empty batch. *)
Definition max_update_id (u : Update) (us : list Update) : Z :=
  fold_left (fun m x => Z.max m (update_id x)) us (update_id u).

(** [getUpdates]: advances the cursor and returns the batch, or rethrows. *)
Definition getUpdates (st : PollState) (f : Fetch)
  : PollState * (jsstring + list Update) :=
  match f with
  | FetchThrows m => (st, inl m)
  | FetchResult [] => (st, inr [])
  | FetchResult (u :: us) =>
      (mkPoll (max_update_id u us) (isPollingActive st) (retryCount st)
              (retryDelay st),
       inr (u :: us))
  end.

(** What [await handleUpdate(update)] can do: resolve, or throw. *)
Inductive Outcome := Resolved | Rejected (reason : Thrown).

(** The call sites that end one run of [pollOnce]. *)
Inductive Next :=
| Idle                      (* the active flag is off: return *)
| Reschedule (delay : Q)    (* setTimeout(pollOnce, interval) *)
| Backoff (delay : Q)       (* setTimeout(pollOnce, retryDelay) *)
| Stop.                     (* too many conflicts: return *)

Inductive Phase := STOPPED | POLLING | BACKOFF.

Definition phase_of (n : Next) : Phase :=
  match n with
  | Idle | Stop => STOPPED
  | Reschedule _ => POLLING
  | Backoff _ => BACKOFF
  end.

Section Loop.
Context {H : Type}.
Variable handleUpdate : Update -> H -> H * Outcome.
Variable interval : Q.

(** The [for (const update of updates)] loop with its try/catch.  The
    catch clause reads [processError.message] and [processError.stack];
    on a nullish [processError] that read throws a [TypeError], which
    leaves the loop.  Returns the handler state, the updates handed to
    [handleUpdate], and whether the loop ran to its end. *)
Fixpoint process_updates (updates : list Update) (h : H)
  : H * list Update * bool :=
  match updates with
  | [] => (h, [], true)
  | update :: rest =>
      let '(h1, o) := handleUpdate update h in
      match o with
      | Resolved | Rejected (ErrorObject _) =>
          let '(h2, seen, finished) := process_updates rest h1 in
          (h2, update :: seen, finished)
      | Rejected Nullish => (h1, [update], false)
      end
  end.

(** The conflict branch of the catch clause. *)
Definition on_conflict (st : PollState) (jitter : Q) : PollState * Next :=
  let retryCount' := (retryCount st + 1)%Z in
  let retryDelay' := (Qmin 60000 (retryDelay st * (3 # 2)) + jitter)%Q in
  if (retryCount' >? 10)%Z
  then (mkPoll (lastUpdateId st) false retryCount' retryDelay', Stop)
  else (mkPoll (lastUpdateId st) (isPollingActive st) retryCount' retryDelay',
        Backoff retryDelay').

(** One run of [pollOnce].  [jitter] is [Math.random() * 1000], read
    only in the conflict branch. *)
Definition pollOnce (st : PollState) (h : H) (f : Fetch) (jitter : Q)
  : PollState * H * list Update * Next :=
  if negb (isPollingActive st) then (st, h, [], Idle)
  else
    match getUpdates st f with
    | (st1, inr updates) =>
        let st2 := mkPoll (lastUpdateId st1) (isPollingActive st1) 0 5000%Q in
        let '(h', seen, _) := process_updates updates h in
        (* a TypeError out of the loop is not a conflict: both ways end
           in setTimeout(pollOnce, interval) *)
        (st2, h', seen, Reschedule interval)
    | (st1, inl message) =>
        if is_conflict message
        then let '(st2, n) := on_conflict st1 jitter in (st2, h, [], n)
        else (st1, h, [], Reschedule interval)
    end.

(** The timer: each scheduled run takes the next fetch result; nothing
    runs once [pollOnce] has returned without scheduling. *)
Fixpoint run (st : PollState) (h : H) (inputs : list (Fetch * Q))
  : PollState * H * list Next :=
  match inputs with
  | [] => (st, h, [])
  | (f, jitter) :: rest =>
      let '(st', h', _, n) := pollOnce st h f jitter in
      match n with
      | Idle | Stop => (st', h', [n])
      | Reschedule _ | Backoff _ =>
          let '(st'', h'', ns) := run st' h' rest in (st'', h'', n :: ns)
      end
  end.

End Loop.

End Polling.

(* ================================================================= *)
(** ** routes/telegram.js, with controllers/telegram.js and
       [sendMessage] of services/telegram/index.js *)

Module Routes.

(** A value of the route-level [activeEmails] map.  [timestamp] is the
    registration time, stored as an ISO string and never read. *)
Record ActiveEmail := mkActive {
  originalEmail : Email;
  questions : list jsstring;
  timestamp : Z
}.

(** The route-level map, keyed by the chat id as received: [Map]
    compares keys by SameValueZero, which on [jsval] is equality. *)
Abbreviation Store := (list (jsval * ActiveEmail)).

(** The texts the handler sends to the chat. *)
Inductive Notice :=
| DraftReply (replyText : jsstring)   (* "Here's the draft reply: ..." *)
| DraftSaved                          (* "Draft has been saved ..." *)
| DraftNotSaved                       (* "... could not be saved to Gmail" *)
| GenerationError                     (* "Sorry, there was an error ..." *)
| NoActiveEmail                       (* "I don't have an active email ..." *)
| EmailQuestions (questions : list jsstring) (email : Email).

(** Calls to the collaborators, in the order they are made. *)
Inductive Event :=
| CallGenerateReply (email : Email) (answers : CorrelatedAnswers)
| CallSendMessage (chatId : jsval) (notice : Notice)
| CallCreateDraft (threadId sender subject : option jsstring)
    (replyText : jsstring).

(** What [await openaiService.generateReply(...)] comes to. *)
Inductive Generated :=
| Reply (replyText : jsstring)
| Rejects (reason : Thrown).

(** How the collaborators answer.  The reply generator
    (services/openai) resolves with a reply text or rejects; the [n]-th
    [sendMessage] of a request reaches the provider or not; the draft is
    created or not. *)
Record World := mkWorld {
  generateReply : Email -> CorrelatedAnswers -> Generated;
  sendOutcome : nat -> bool;
  createDraft : option jsstring -> option jsstring -> option jsstring ->
                jsstring -> bool
}.

Record HState := mkH {
  store : Store;
  trace : list Event;
  sends : nat
}.

(** Code that may throw, over the handler state. *)
Inductive result (A : Type) := Return (a : A) | Throw (e : Thrown).
Arguments Return {A} a.
Arguments Throw {A} e.

Definition M (A : Type) := HState -> result A * HState.

Definition ret {A} (a : A) : M A := fun s => (Return a, s).

Definition bind {A B} (m : M A) (k : A -> M B) : M B :=
  fun s => match m s with
           | (Return a, s') => k a s'
           | (Throw e, s') => (Throw e, s')
           end.

(** [try { m } catch (error) { h error }] *)
Definition try_catch {A} (m : M A) (h : Thrown -> M A) : M A :=
  fun s => match m s with
           | (Return a, s') => (Return a, s')
           | (Throw e, s') => h e s'
           end.

Definition throw {A} (e : Thrown) : M A := fun s => (Throw e, s).

(** Reading [error.message] in a catch clause. *)
Definition read_message (error : Thrown) : M unit :=
  match error with
  | ErrorObject _ => ret tt
  | Nullish => throw type_error
  end.

#[local] Instance M_ret : MRet M := @ret.
#[local] Instance M_bind : MBind M := fun A B k m => bind m k.

Definition log (e : Event) : M unit :=
  fun s => (Return tt, mkH (store s) (trace s ++ [e]) (sends s)).

Definition get_store : M Store := fun s => (Return (store s), s).

Definition put_store (m : Store) : M unit :=
  fun s => (Return tt, mkH m (trace s) (sends s)).

Definition fail_unless (b : bool) (e : Thrown) : M unit :=
  fun s => if b then (Return tt, s) else (Throw e, s).

Section Handlers.
Variable w : World.

(** [telegramService.sendMessage]: throws without a chat id, and when
    the request to the provider fails. *)
Definition sendMessage (chatId : jsval) (notice : Notice) : M unit :=
  log (CallSendMessage chatId notice) ;;
  ((fun s =>
      (if truthy chatId && sendOutcome w (sends s) then Return tt
       else Throw (ErrorObject (js "Failed to send Telegram message")),
       mkH (store s) (trace s) (S (sends s)))) : M unit).

Definition callGenerateReply (email : Email) (answers : CorrelatedAnswers)
  : M jsstring :=
  log (CallGenerateReply email answers) ;;
  match generateReply w email answers with
  | Reply replyText => ret replyText
  | Rejects reason => throw reason
  end.

(** [await gmailService.createDraft(threadId, sender, subject,
    replyText)]: the four arguments are passed by position.  Whether
    the call resolves is left to [createDraft w]; the [createDraft] of
    services/gmail takes one object [{to, subject, body, threadId}], so
    that there the call of the route rejects, which is the case
    [createDraft w ... = false]. *)
Definition callCreateDraft (e : Email) (replyText : jsstring) : M unit :=
  log (CallCreateDraft (threadId e) (sender e) (subject e) replyText) ;;
  fail_unless (createDraft w (threadId e) (sender e) (subject e) replyText)
              (ErrorObject (js "Failed to create draft")).

(** "Ensure required fields are present": the stored email object is
    updated in place. *)
Definition ensure_fields (e : Email) : Email :=
  if negb (truthy_field (subject e)) || negb (truthy_field (body e))
     || negb (truthy_field (sender e))
  then mkEmail (Some (or_default (subject e) (js "[No Subject]")))
               (Some (or_default (body e) []))
               (Some (or_default (sender e) (js "[Unknown Sender]")))
               (threadId e)
  else e.

(** controllers/telegram.js, [handleIncomingMessage]: [None] is
    [{ success: false }], [Some data] is
    [{ success: true, type: 'answers', data }]. *)
Definition handleIncomingMessage (m : Message) : option AnswerSet :=
  match text m with
  | Some (c :: s) => Some (parseNumberedAnswers (JStr (c :: s)))
  | _ => None
  end.

(** The branch taken when a stored email is found for the chat. *)
Definition reply_flow (chatId : jsval) (emailData : ActiveEmail)
  (data : AnswerSet) : M unit :=
  try_catch
    (let finalAnswersObject :=
       matchAnswersToQuestions (Some (questions emailData)) (Some data) in
     let email := ensure_fields (originalEmail emailData) in
     m ← get_store;
     put_store (mset chatId
                  (mkActive email (questions emailData) (timestamp emailData))
                  m) ;;
     replyText ← callGenerateReply email finalAnswersObject;
     sendMessage chatId (DraftReply replyText) ;;
     try_catch
       (callCreateDraft email replyText ;;
        sendMessage chatId DraftSaved)
       (fun draftError => sendMessage chatId DraftNotSaved) ;;
     m' ← get_store;
     put_store (mdelete chatId m'))
    (fun error =>
       read_message error ;;
       sendMessage chatId GenerationError).

(** The body of the webhook's outer [try], for a valid update. *)
Definition webhook_body (update : Update) : M unit :=
  match message update with
  | Some msg =>
      let chatId := chat_id msg in
      let messageText := or_default (text msg) [] in
      if startsWith_slash messageText then
        ret tt   (* handleCommandMessage: the result is only logged *)
      else
        match handleIncomingMessage msg with
        | Some data =>
            m ← get_store;
            match mget chatId m with
            | Some emailData => reply_flow chatId emailData data
            | None => sendMessage chatId NoActiveEmail
            end
        | None => ret tt
        end
  | None => ret tt
  end.

(** POST /webhook: the HTTP status, the map afterwards and the calls
    made.  Every update with an id is answered with 200. *)
Definition webhook (update : Update) (m : Store)
  : Z * Store * list Event :=
  if (update_id update =? 0)%Z then (400%Z, m, [])
  else
    let '(_, s) := webhook_body update (mkH m [] 0) in
    (200%Z, store s, trace s).

(** POST /send-email-questions.  [questions] is [None] when the body's
    field is not an array, [email] is [None] when it is missing. *)
Definition send_email_questions (now : Z) (chatId : jsval)
  (questions : option (list jsstring)) (email : option Email) (m : Store)
  : Z * Store * list Event :=
  match questions, email with
  | Some (q :: qs), Some e =>
      if negb (truthy chatId) then (400%Z, m, [])
      else
        let m1 := mset chatId (mkActive e (q :: qs) now) m in
        let '(r, s) := sendMessage chatId (EmailQuestions (q :: qs) e)
                         (mkH m1 [] 0) in
        (match r with Return _ => 200%Z | Throw _ => 500%Z end,
         store s, trace s)
  | _, _ => (400%Z, m, [])
  end.

End Handlers.

End Routes.

Import Regex.
Import Polling.
Import Routes.

(* ================================================================= *)
(** ** Specification-side definitions *)

(** [Number.MAX_SAFE_INTEGER]: up to here [Z] and JavaScript numbers
    agree on the integers. *)
Definition MAX_SAFE_INTEGER : Z := 2 ^ 53 - 1.

(** The predicate [p] fails on the first character, if there is one. *)
Definition head_fails (p : jschar -> bool) (s : jsstring) : Prop :=
  match s with [] => True | c :: _ => p c = false end.

(** What a trimmed line contributes, read off its shape without any
    backtracking: [D] is the leading run of digits, [S] the run of
    separator characters after it, [A] the rest.
    - With a rest, the entry is [D -> A], unless [A] holds a line
      terminator (which [.] does not match).
    - Without a rest, the last separator character is taken for the
      answer; without separators too, the last digit is. *)
Definition spec_of (t : jsstring) : option (Z * jsstring) :=
  let D := takeWhile is_digit t in
  let S := takeWhile is_sep (dropWhile is_digit t) in
  let A := dropWhile is_sep (dropWhile is_digit t) in
  match D with
  | [] => None
  | _ :: D' =>
      match A with
      | _ :: _ =>
          if existsb is_line_terminator A then None
          else Some (digits_value D, A)
      | [] =>
          match S with
          | _ :: _ => Some (digits_value D, [List.last S 0%N])
          | [] =>
              match D' with
              | _ :: _ => Some (digits_value (removelast D), [List.last D 0%N])
              | [] => None
              end
          end
      end
  end.

(** The entry a line of the message contributes, if any. *)
Definition line_spec (line : jsstring) : option (Z * jsstring) :=
  spec_of (trim line).

(** The line has no entry for question [n]. *)
Definition no_entry (n : Z) (l : jsstring) : Prop :=
  forall a, line_spec l <> Some (n, a).

(** An answer as it stands in a line: not empty, starting with no
    separator, free of line terminators, ending in no white space. *)
Definition answer_text (A : jsstring) : Prop :=
  A <> [] /\ head_fails is_sep A /\
  existsb is_line_terminator A = false /\ is_space (List.last A 0%N) = false.

(** The question number of the line stays within the safe integers. *)
Definition safe_line (l : jsstring) : Prop :=
  (digits_value (takeWhile is_digit (trim l)) <= MAX_SAFE_INTEGER)%Z.

(** The shape ["<N><sep><answer>"] with a positive [N] and one or more
    separator characters. *)
Definition separated_shape (l : jsstring) : Prop :=
  exists D S A, trim l = D ++ S ++ A /\
    D <> [] /\ forallb is_digit D = true /\ (0 < digits_value D)%Z /\
    S <> [] /\ forallb is_sep S = true /\ A <> [].

(** The continuation of the pattern after the optional separator group. *)
Definition tail_k (t r1 : jsstring)
  : jsstring -> option (jsstring * jsstring) :=
  fun r2 => star is_space r2 (fun r3 => plus is_dot r3 (fun r4 =>
            eoi r4 (fun _ => Some (capture t r1, capture r3 r4)))).

(** What the loop body enters for a trimmed line. *)
Definition entry_of (t : jsstring) : option (Z * jsstring) :=
  match answer_pattern t with
  | Some (m1, m2) =>
      match parseInt10 m1 with
      | Some n => if nonempty (trim m2) then Some (n, trim m2) else None
      | None => None
      end
  | None => None
  end.

(** [answerSet[i+1]] when it is present and truthy, for the 0-based
    position [i]. *)
Definition answer_at (answers : AnswerSet) (i : nat) : option jsstring :=
  match answers !! (Z.of_nat i + 1)%Z with
  | Some a => if nonempty a then Some a else None
  | None => None
  end.

Definition last_hit (answers : AnswerSet) (base : nat) (qs : list jsstring)
  (q a : jsstring) : Prop :=
  exists i, qs !! i = Some q /\ answer_at answers (base + i) = Some a /\
            forall j, i < j -> qs !! j = Some q ->
                      answer_at answers (base + j) = None.

Definition no_hit (answers : AnswerSet) (base : nat) (qs : list jsstring)
  (q : jsstring) : Prop :=
  forall j, qs !! j = Some q -> answer_at answers (base + j) = None.

(** The delay before jitter of each consecutive conflict:
    [min(60000, previousDelay * 1.5)], where the previous delay includes
    the previous jitter. *)
Fixpoint backoff_bases (previousDelay : Q) (jitters : list Q) : list Q :=
  match jitters with
  | [] => []
  | j :: rest =>
      let base := Qmin 60000 (previousDelay * (3 # 2)) in
      base :: backoff_bases (base + j)%Q rest
  end.

(** Consecutive fetches that fail with the given error messages, each
    paired with the jitter drawn for it. *)
Definition conflicts (errors : list (jsstring * Q)) : list (Fetch * Q) :=
  List.map (fun e => (FetchThrows e.1, e.2)) errors.

Definition conflict_error (e : jsstring * Q) : Prop := is_conflict e.1 = true.

Definition jitter_ok (j : Q) : Prop := (0 <= j)%Q /\ (j < 1000)%Q.

(** An update that the webhook treats as a reply to questions: it has an
    id, a message, and a non-empty text that does not start with [/]. *)
Definition answer_candidate (u : Update) (msg : Message) (data : AnswerSet)
  : Prop :=
  update_id u <> 0%Z /\ message u = Some msg /\
  exists c s, text msg = Some (c :: s) /\ (c =? 47)%N = false /\
              data = parseNumberedAnswers (JStr (c :: s)).

(** Entries of the route-level map older than the 24 hours of the spec. *)
Definition older_than_24h (now : Z) (e : ActiveEmail) : Prop :=
  (now - timestamp e > 24 * 60 * 60 * 1000)%Z.

(** A reply generator was called. *)
Definition correlated (tr : list Event) : Prop :=
  exists email answers, In (CallGenerateReply email answers) tr.

(** The [n]-th [sendMessage] of a request to chat [c] goes out. *)
Definition sent (w : Routes.World) (c : jsval) (n : nat) : bool :=
  truthy c && Routes.sendOutcome w n.

(* ================================================================= *)
(** ** Concrete scenarios *)

Definition demo_state : EmailState.State :=
  EmailState.mkState [(js "42", 1%N)]
          {[ 1%N := EmailState.mkEmailData None [js "When?"] (Some 1000%Z) ]}.

Definition demo_jitters : list Q :=
  [0; 100; 200; 300; 400; 500; 600; 700; 800; 900; 999]%Q.

(** Eleven conflict errors as the provider words them. *)
Definition demo_errors : list (jsstring * Q) :=
  List.map (fun j => (Polling.conflict_text, j)) demo_jitters.

Definition upd (n : Z) : Update := mkUpdate n None.

(** A handler that records the ids it is given and rejects update 1
    with [undefined]. *)
Definition rejecting_handler (u : Update) (seen : list Z)
  : list Z * Outcome :=
  (seen ++ [update_id u],
   if (update_id u =? 1)%Z then Rejected Nullish else Resolved).

(** A handler that records the ids it is given and rejects update 1
    with an [Error]. *)
Definition throwing_handler (u : Update) (seen : list Z)
  : list Z * Outcome :=
  (seen ++ [update_id u],
   if (update_id u =? 1)%Z then Rejected (ErrorObject (js "boom"))
   else Resolved).

Definition demo_email : Email :=
  mkEmail (Some (js "Quote")) (Some (js "How much?"))
          (Some (js "ann@example.org")) (Some (js "t-1")).

Definition demo_entry : ActiveEmail :=
  mkActive demo_email [js "How much?"; js "When?"] 0.

Definition demo_store : Store := [(JNum 5, demo_entry)].

Definition demo_update (chat : jsval) : Update :=
  mkUpdate 7 (Some (mkMessage chat (Some (js "1. 1300")) (JNum 9))).

Definition demo_answers : CorrelatedAnswers :=
  {[ js "How much?" := js "1300" ]}.

(** The generator answers, the provider refuses every message. *)
Definition world_send_fails : World :=
  mkWorld (fun _ _ => Reply (js "Dear Ann")) (fun _ => false)
          (fun _ _ _ _ => false).

(** The generator answers, messages go out, the draft is refused. *)
Definition world_draft_fails : World :=
  mkWorld (fun _ _ => Reply (js "Dear Ann")) (fun _ => true)
          (fun _ _ _ _ => false).

(* ================================================================= *)
(** ** utils/telegramParser.js: formatting and the Q format *)

Module TelegramFormat.

(** The line [`${index + 1}. ${question}`], without its newline. *)
Definition numbered (index : nat) (question : jsstring) : jsstring :=
  Z_to_js (Z.of_nat index + 1) ++ js ". " ++ question.

(** [questions.forEach((question, index) => formattedText += ...)],
    from [index] on. *)
Fixpoint format_from (index : nat) (questions : list jsstring)
  (formattedText : jsstring) : jsstring :=
  match questions with
  | [] => formattedText
  | question :: rest =>
      format_from (S index) rest
        (formattedText ++ numbered index question ++ [10%N])
  end.

(** [questions] is [None] when the argument is not an array. *)
Definition formatNumberedQuestions (questions : option (list jsstring))
  : jsstring :=
  match questions with
  | Some (q :: qs) => format_from 0 (q :: qs) []
  | _ => []
  end.

(** One character of a class. *)
Definition chr {A} (p : jschar -> bool) (s : jsstring)
  (k : jsstring -> option A) : option A :=
  match s with
  | c :: s' => if p c then k s' else None
  | [] => None
  end.

(** [Q] under the [i] flag: the two characters whose upper case is [Q]. *)
Definition is_q (c : jschar) : bool := ((c =? 81) || (c =? 113))%N.

Definition is_colon (c : jschar) : bool := (c =? 58)%N.

(** [/Q(\d+)\s*:/i] at the start of [s]: the capture, and the input
    behind the match. *)
Definition q_pattern (s : jsstring) : option (jsstring * jsstring) :=
  chr is_q s (fun r0 =>
  plus is_digit r0 (fun r1 =>
  star is_space r1 (fun r2 =>
  chr is_colon r2 (fun r3 => Some (capture r0 r1, r3))))).

(** [s.replace(/Q(\d+)\s*:/gi, '$1.')]: the leftmost match is replaced
    and the search goes on behind it; a character at which no match
    starts is copied.  A match is never empty, so [length s] steps are
    enough. *)
Fixpoint replace_all (fuel : nat) (s : jsstring) : jsstring :=
  match fuel with
  | 0 => s
  | S fuel' =>
      match s with
      | [] => []
      | c :: s' =>
          match q_pattern s with
          | Some (m1, rest) => m1 ++ js "." ++ replace_all fuel' rest
          | None => c :: replace_all fuel' s'
          end
      end
  end.

Definition replace_q (s : jsstring) : jsstring := replace_all (length s) s.

Definition convertQFormatToNumbered (messageText : jsval) : jsval :=
  match messageText with
  | JStr (c :: s) => JStr (replace_q (c :: s))
  | _ => messageText
  end.

End TelegramFormat.

Import TelegramFormat.

(** What [/Q(\d+)\s*:/i] matches at the start of [s], read off without
    backtracking: the run of digits behind the [Q], when white space and
    a colon follow it. *)
Definition q_spec (s : jsstring) : option (jsstring * jsstring) :=
  match s with
  | c :: s' =>
      if is_q c then
        match takeWhile is_digit s',
              dropWhile is_space (dropWhile is_digit s') with
        | _ :: _, c2 :: r3 =>
            if is_colon c2 then Some (takeWhile is_digit s', r3) else None
        | _, _ => None
        end
      else None
  | [] => None
  end.

(** A line that does not start with a digit once it is trimmed. *)
Definition unnumbered (line : jsstring) : Prop :=
  head_fails is_digit (trim line).

(* ================================================================= *)
(** ** services/telegram/polling.js: the start and the request *)

Module PollingStart.

(** The module-level variables when the module is loaded. *)
Definition loaded : PollState := mkPoll 0 false 0 5000%Q.


(** The query of the [getUpdates] request: [offset] and [timeout], for
    [random] the value of [Math.random()]. *)
Definition getUpdates_query (st : PollState) (random : Q) : Z * Z :=
  ((lastUpdateId st + 1)%Z, (1 + Qfloor (random * 2))%Z).

End PollingStart.

Import PollingStart.

(** The number of conflict errors among failed fetches. *)
Definition count_conflicts (errors : list (jsstring * Q)) : nat :=
  length (List.filter (fun e => is_conflict e.1) errors).

(** The range of the delay between two conflicts. *)
Definition delay_ok (st : PollState) : Prop :=
  (5000 <= retryDelay st)%Q /\ (retryDelay st < 61000)%Q.

(** The call is scheduled: the loop goes on. *)
Definition goes_on (n : Next) : Prop := phase_of n <> STOPPED.

(* ================================================================= *)
(** ** controllers/telegram.js: commands *)

Module Controller.

(** [s.split(' ')]: never empty. *)
Fixpoint split_space (s : jsstring) : list jsstring :=
  match s with
  | [] => [[]]
  | c :: s' =>
      if (c =? 32)%N then [] :: split_space s'
      else match split_space s' with
           | p :: ps => (c :: p) :: ps
           | [] => [[c]]
           end
  end.

(** [data] of a successful result. *)
Record Command := mkCommand {
  command : jsstring;
  args : list jsstring
}.

Section Commands.
(** [String.prototype.toLowerCase] *)
Variable toLowerCase : jsstring -> jsstring.

(** [handleCommandMessage]: [None] is
    [{ success: false, error: 'Not a valid command' }]. *)
Definition handleCommandMessage (m : option Message) : option Command :=
  match m with
  | Some msg =>
      match text msg with
      | Some (c :: fullCommand) =>
          if (c =? 47)%N then
            match split_space fullCommand with
            | p :: parts => Some (mkCommand (toLowerCase p) parts)
            | [] => None
            end
          else None
      | _ => None
      end
  | None => None
  end.

End Commands.

End Controller.

Import Controller.

(** [parts.join(' ')] *)
Definition join_space (parts : list jsstring) : jsstring :=
  match parts with
  | [] => []
  | p :: ps => p ++ List.concat (List.map (fun a => 32%N :: a) ps)
  end.

(** An update that the webhook does not treat as a reply to questions:
    it has no message, or no text, or its text starts with [/]. *)
Definition plain_update (u : Update) : Prop :=
  match message u with
  | None => True
  | Some msg =>
      match text msg with
      | Some (c :: _) => (c =? 47)%N = true
      | _ => True
      end
  end.

Definition is_generate (e : Event) : bool :=
  match e with CallGenerateReply _ _ => true | _ => false end.

Definition is_draft (e : Event) : bool :=
  match e with CallCreateDraft _ _ _ _ => true | _ => false end.

(** The entry the webhook keeps for a stored email: the same questions
    and registration time, and the email with its missing fields filled
    in. *)
Definition kept_entry (e : ActiveEmail) : ActiveEmail :=
  mkActive (ensure_fields (originalEmail e)) (questions e) (timestamp e).

(** The generator rejects with an error object; messages go out. *)
Definition world_generator_fails : World :=
  mkWorld (fun _ _ => Rejects (ErrorObject (js "timeout"))) (fun _ => true)
          (fun _ _ _ _ => true).

(* ================================================================= *)
(** * Proofs *)

(** ** Character classes, spans and trimming *)

(** Decides a relation between character classes by comparing the
    character with each code point the classes name. *)
Ltac classes :=
  unfold is_sep, is_space, is_digit, is_dot, is_line_terminator in *;
  repeat match goal with
  | H : context [N.eqb ?a ?b] |- _ =>
      destruct (N.eqb_spec a b); [subst; try discriminate; cbn in * |]
  | H : context [N.leb ?a ?b] |- _ => destruct (N.leb_spec a b)
  | |- context [N.eqb ?a ?b] =>
      destruct (N.eqb_spec a b); [subst; cbn in * |]
  | |- context [N.leb ?a ?b] => destruct (N.leb_spec a b)
  end; cbn in *; try discriminate; try reflexivity; try lia.

Lemma digit_not_space c : is_digit c = true -> is_space c = false.
Proof. intros H. classes. Qed.

Lemma digit_not_sep c : is_digit c = true -> is_sep c = false.
Proof. intros H. classes. Qed.

Lemma space_is_sep c : is_space c = true -> is_sep c = true.
Proof. intros H. unfold is_sep. rewrite H. apply orb_true_r. Qed.

Lemma lt_is_space c : is_line_terminator c = true -> is_space c = true.
Proof. intros H. classes. Qed.

Lemma digit_is_dot c : is_digit c = true -> is_dot c = true.
Proof. intros H. classes. Qed.

(** Spans *)
Lemma span_app p s : takeWhile p s ++ dropWhile p s = s.
Proof. induction s as [|c s IH]; cbn; [done|]. destruct (p c); cbn; [by rewrite IH | done]. Qed.

Lemma takeWhile_all p s : forallb p (takeWhile p s) = true.
Proof. induction s as [|c s IH]; cbn; [done|]. destruct (p c) eqn:E; cbn; [by rewrite E | done]. Qed.

Lemma dropWhile_head p s : head_fails p (dropWhile p s).
Proof. induction s as [|c s IH]; cbn; [done|]. destruct (p c) eqn:E; cbn; done. Qed.

Lemma takeWhile_app_all p a r :
  forallb p a = true -> head_fails p r -> takeWhile p (a ++ r) = a.
Proof.
  induction a as [|c a IH]; cbn; intros Ha Hr.
  - destruct r as [|d r]; cbn in *; [done | by rewrite Hr].
  - apply andb_true_iff in Ha as [-> Ha]. by rewrite IH.
Qed.

Lemma dropWhile_app_all p a r :
  forallb p a = true -> head_fails p r -> dropWhile p (a ++ r) = r.
Proof.
  induction a as [|c a IH]; cbn; intros Ha Hr.
  - destruct r as [|d r]; cbn in *; [done | by rewrite Hr].
  - apply andb_true_iff in Ha as [-> Ha]. by rewrite IH.
Qed.

Lemma dropWhile_id p s : head_fails p s -> dropWhile p s = s.
Proof. destruct s; cbn; [done|]. by intros ->. Qed.

(** Trimming *)
Lemma trim_shape s :
  trim s = [] \/ exists s' c, trim s = s' ++ [c] /\ is_space c = false.
Proof.
  unfold trim, trimEnd.
  pose proof (dropWhile_head is_space (rev (trimStart s))) as H.
  destruct (dropWhile is_space (rev (trimStart s))) as [|c u]; [by left|].
  right. exists (rev u), c. cbn in *. done.
Qed.

Lemma trim_id s c s' d :
  s = c :: s' -> is_space c = false ->
  (exists u, s = u ++ [d]) -> is_space d = false -> trim s = s.
Proof.
  intros -> Hc [u Hu] Hd. unfold trim, trimStart, trimEnd.
  cbn [dropWhile]. rewrite Hc, Hu, rev_app_distr. cbn [rev app dropWhile].
  rewrite Hd. cbn. by rewrite rev_involutive.
Qed.

(** ** The backtracking matcher *)
Section StarFacts.
Context {A : Type}.
Implicit Types (k : jsstring -> option A).

Lemma star_all p a r k x :
  forallb p a = true -> head_fails p r -> k r = Some x ->
  star p (a ++ r) k = Some x.
Proof.
  induction a as [|c a IH]; cbn; intros Ha Hr Hk.
  - destruct r as [|d r]; cbn in *; [done | by rewrite Hr].
  - apply andb_true_iff in Ha as [-> Ha]. by rewrite IH.
Qed.

Lemma star_last p a c k x :
  forallb p a = true -> p c = true -> k [] = None -> k [c] = Some x ->
  star p (a ++ [c]) k = Some x.
Proof.
  induction a as [|d a IH]; cbn; intros Ha Hc H0 H1.
  - by rewrite Hc, H0.
  - apply andb_true_iff in Ha as [-> Ha]. by rewrite IH.
Qed.

Lemma star_none p pre r k :
  head_fails p r -> (forall pre', k (pre' ++ r) = None) ->
  star p (pre ++ r) k = None.
Proof.
  intros Hr Hk. induction pre as [|c pre IH]; cbn.
  - destruct r as [|d r]; [apply (Hk []) |].
    cbn in *. rewrite Hr. apply (Hk []).
  - rewrite IH. destruct (p c); apply (Hk (c :: pre)).
Qed.

Lemma plus_none p pre r k :
  head_fails p r -> (forall pre', k (pre' ++ r) = None) ->
  plus p (pre ++ r) k = None.
Proof.
  intros Hr Hk. destruct pre as [|c pre]; cbn.
  - destruct r as [|d r]; [done|]. cbn in *. by rewrite Hr.
  - destruct (p c); [by apply star_none | done].
Qed.

Lemma star_dot_eoi_none s (kk : jsstring -> jsstring -> option A) :
  existsb is_line_terminator s = true ->
  star is_dot s (fun r => eoi r (kk r)) = None.
Proof.
  induction s as [|c s IH]; cbn; [done|]. intros H.
  unfold is_dot at 1. destruct (is_line_terminator c); cbn in *; [done|].
  by rewrite IH.
Qed.

Lemma plus_dot_eoi_none s (kk : jsstring -> jsstring -> option A) :
  s = [] \/ existsb is_line_terminator s = true ->
  plus is_dot s (fun r => eoi r (kk r)) = None.
Proof.
  intros [-> | H]; [done|]. destruct s as [|c s]; [done|]. cbn in *.
  unfold is_dot. destruct (is_line_terminator c); cbn in *; [done|].
  by apply star_dot_eoi_none.
Qed.

Lemma star_dot_eoi_all s (kk : jsstring -> jsstring -> option A) :
  existsb is_line_terminator s = false ->
  star is_dot s (fun r => eoi r (kk r)) = kk [] [].
Proof.
  induction s as [|c s IH]; cbn; [done|]. intros H.
  apply orb_false_iff in H as [Hc Hs]. unfold is_dot at 1. rewrite Hc. cbn.
  rewrite (IH Hs). by destruct (kk [] []).
Qed.

End StarFacts.

Lemma existsb_app_r {B} (p : B -> bool) a b :
  existsb p b = true -> existsb p (a ++ b) = true.
Proof. intros H. rewrite existsb_app, H. apply orb_true_r. Qed.

(** ** The answer pattern, case by case *)
Lemma answer_pattern_unfold t :
  answer_pattern t = plus is_digit t (fun r1 => opt (plus is_sep) r1 (tail_k t r1)).
Proof. reflexivity. Qed.

Lemma capture_app a b : capture (a ++ b) b = a.
Proof.
  unfold capture. rewrite length_app.
  replace (length a + length b - length b) with (length a) by lia.
  by rewrite take_app_length.
Qed.

Lemma capture_nil a : capture a [] = a.
Proof. rewrite <- (app_nil_r a) at 1. apply capture_app. Qed.

Lemma not_sep_not_space c : is_sep c = false -> is_space c = false.
Proof.
  intros H. destruct (is_space c) eqn:E; [|done].
  apply space_is_sep in E. congruence.
Qed.

(** An answer is present and holds no line terminator. *)
Lemma tail_k_answer t r1 A :
  A <> [] -> head_fails is_sep A -> existsb is_line_terminator A = false ->
  tail_k t r1 A = Some (capture t r1, A).
Proof.
  intros HA Hh Hlt. destruct A as [|c A]; [done|]. unfold tail_k. cbn in Hh.
  apply not_sep_not_space in Hh.
  cbn [star]. rewrite Hh. cbn [plus]. cbn in Hlt.
  apply orb_false_iff in Hlt as [Hl1 Hl2]. unfold is_dot at 1. rewrite Hl1.
  cbn [negb].
  rewrite (star_dot_eoi_all A (fun r4 _ => Some (capture t r1, capture (c :: A) r4)))
    by done.
  by rewrite capture_nil.
Qed.

Lemma tail_k_none t r1 pre A :
  head_fails is_sep A -> existsb is_line_terminator A = true ->
  tail_k t r1 (pre ++ A) = None.
Proof.
  intros Hh Hlt. unfold tail_k. apply star_none.
  - destruct A as [|c A]; [done|]. cbn in *. by apply not_sep_not_space.
  - intros pre'.
    apply (plus_dot_eoi_none _
             (fun r4 _ => Some (capture t r1, capture (pre' ++ A) r4))).
    right. by apply existsb_app_r.
Qed.

Lemma sep_not_digit c : is_sep c = true -> is_digit c = false.
Proof.
  intros H. destruct (is_digit c) eqn:E; [|done].
  apply digit_not_sep in E. congruence.
Qed.

Lemma not_space_is_dot c : is_space c = false -> is_dot c = true.
Proof.
  intros H. unfold is_dot. destruct (is_line_terminator c) eqn:E; [|done].
  apply lt_is_space in E. congruence.
Qed.

Lemma tail_k_empty t r1 : tail_k t r1 [] = None.
Proof. reflexivity. Qed.

Lemma tail_k_single t r1 c :
  is_space c = false -> tail_k t r1 [c] = Some (capture t r1, [c]).
Proof.
  intros Hc. unfold tail_k. cbn [star]. rewrite Hc. cbn [plus].
  rewrite (not_space_is_dot c Hc). reflexivity.
Qed.

Lemma pattern_answer D S A :
  D <> [] -> forallb is_digit D = true -> forallb is_sep S = true ->
  head_fails is_digit (S ++ A) -> A <> [] -> head_fails is_sep A ->
  existsb is_line_terminator A = false ->
  answer_pattern (D ++ S ++ A) = Some (D, A).
Proof.
  intros HD Hd Hs Hh HA HhA Hlt. rewrite answer_pattern_unfold.
  destruct D as [|d D]; [done|]. cbn in Hd.
  apply andb_true_iff in Hd as [Hd1 Hd]. cbn [app plus]. rewrite Hd1.
  apply star_all; [done | done |].
  unfold opt.
  assert (tail_k ((d :: D) ++ S ++ A) (S ++ A) A = Some (d :: D, A)) as Ht.
  { rewrite tail_k_answer by done. by rewrite capture_app. }
  destruct S as [|s S].
  - cbn [app] in *. destruct A as [|a A]; [done|]. cbn in HhA.
    cbn [plus]. by rewrite HhA.
  - cbn in Hs. apply andb_true_iff in Hs as [Hs1 Hs]. cbn [app plus].
    rewrite Hs1. rewrite (star_all is_sep S A _ (d :: D, A) Hs HhA); [done|].
    exact Ht.
Qed.

Lemma pattern_none D S A :
  head_fails is_digit (S ++ A) -> head_fails is_sep A ->
  existsb is_line_terminator A = true ->
  answer_pattern (D ++ S ++ A) = None.
Proof.
  intros Hh HhA Hlt. rewrite answer_pattern_unfold.
  apply plus_none; [done|]. intros pre. unfold opt.
  rewrite (app_assoc pre S A).
  rewrite plus_none; [| done | intros; by apply tail_k_none].
  by apply tail_k_none.
Qed.

Lemma pattern_punct D S c :
  D <> [] -> forallb is_digit D = true -> forallb is_sep S = true ->
  is_sep c = true -> is_space c = false ->
  answer_pattern (D ++ S ++ [c]) = Some (D, [c]).
Proof.
  intros HD Hd Hs Hc Hsp. rewrite answer_pattern_unfold.
  destruct D as [|d D]; [done|]. cbn in Hd.
  apply andb_true_iff in Hd as [Hd1 Hd]. cbn [app plus]. rewrite Hd1.
  apply star_all; [done | |].
  { destruct S as [|s S]; cbn in *.
    - by apply sep_not_digit.
    - apply andb_true_iff in Hs as [Hs1 _]. by apply sep_not_digit. }
  assert (tail_k ((d :: D) ++ S ++ [c]) (S ++ [c]) [c] = Some (d :: D, [c]))
    as Ht.
  { rewrite tail_k_single by done. by rewrite capture_app. }
  unfold opt. destruct S as [|s S].
  - cbn [app plus] in *. rewrite Hc. cbn [star]. by rewrite tail_k_empty.
  - cbn in Hs. apply andb_true_iff in Hs as [Hs1 Hs]. cbn [app plus].
    rewrite Hs1.
    rewrite (star_last is_sep S c _ (d :: D, [c]) Hs Hc); [done | done |].
    exact Ht.
Qed.

Lemma pattern_digits D c :
  D <> [] -> forallb is_digit D = true -> is_digit c = true ->
  answer_pattern (D ++ [c]) = Some (D, [c]).
Proof.
  intros HD Hd Hc. rewrite answer_pattern_unfold.
  destruct D as [|d D]; [done|]. cbn in Hd.
  apply andb_true_iff in Hd as [Hd1 Hd]. cbn [app plus]. rewrite Hd1.
  apply star_last; [done | done | reflexivity |].
  unfold opt. cbn [plus]. rewrite (digit_not_sep c Hc).
  rewrite tail_k_single by (by apply digit_not_space).
  f_equal. f_equal. change (d :: D ++ [c]) with ((d :: D) ++ [c]).
  apply capture_app.
Qed.

Lemma pattern_single d : answer_pattern [d] = None.
Proof.
  rewrite answer_pattern_unfold. cbn [plus]. by destruct (is_digit d).
Qed.

Lemma pattern_nodigit t : head_fails is_digit t -> answer_pattern t = None.
Proof.
  intros H. rewrite answer_pattern_unfold. destruct t as [|c t]; [done|].
  cbn in *. by rewrite H.
Qed.

Lemma parseInt10_digits ds :
  ds <> [] -> forallb is_digit ds = true ->
  parseInt10 ds = Some (digits_value ds).
Proof.
  intros Hne Hd. destruct ds as [|d ds]; [done|].
  pose proof Hd as Hall. cbn in Hd. apply andb_true_iff in Hd as [Hd1 Hd].
  unfold parseInt10, trimStart. cbn [dropWhile].
  rewrite (digit_not_space d Hd1).
  assert ((d =? 45)%N = false /\ (d =? 43)%N = false) as [-> ->].
  { clear -Hd1. split; classes. }
  replace (takeWhile is_digit (d :: ds)) with (d :: ds)
    by (rewrite <- (app_nil_r (d :: ds)) at 2; by rewrite takeWhile_app_all).
  f_equal. lia.
Qed.

Lemma line_spec_eq line : line_spec line = spec_of (trim line).
Proof. reflexivity. Qed.

Lemma trim_single c : is_space c = false -> trim [c] = [c].
Proof. intros H. unfold trim, trimStart, trimEnd. cbn. rewrite H. cbn. by rewrite H. Qed.

Lemma last_snoc_eq {B} (a b : list B) (x y : B) :
  a ++ [x] = b ++ [y] -> a = b /\ x = y.
Proof. intros H. apply app_inj_tail in H. done. Qed.

Lemma entry_spec t :
  (t = [] \/ exists s' c, t = s' ++ [c] /\ is_space c = false) ->
  entry_of t = spec_of t.
Proof.
  intros Ht. unfold entry_of, spec_of.
  pose proof (span_app is_digit t) as E1.
  pose proof (span_app is_sep (dropWhile is_digit t)) as E2.
  pose proof (takeWhile_all is_digit t) as HD.
  pose proof (takeWhile_all is_sep (dropWhile is_digit t)) as HS.
  pose proof (dropWhile_head is_digit t) as HhR.
  pose proof (dropWhile_head is_sep (dropWhile is_digit t)) as HhA.
  set (D := takeWhile is_digit t) in *.
  set (S := takeWhile is_sep (dropWhile is_digit t)) in *.
  set (A := dropWhile is_sep (dropWhile is_digit t)) in *.
  rewrite <- E2 in E1, HhR. clear E2.
  destruct D as [|d D'] eqn:ED.
  { cbn in E1. rewrite pattern_nodigit; [done|]. by rewrite <- E1. }
  rewrite <- ED in *. assert (D <> []) as HDne by (by rewrite ED).
  destruct Ht as [-> | (s' & c & Ht & Hc)].
  { apply app_eq_nil in E1 as [? _]. done. }
  destruct A as [|a A'] eqn:EA.
  - rewrite app_nil_r in E1, HhR.
    destruct S as [|s S'] eqn:ES.
    + rewrite app_nil_r in E1. rewrite ED.
      destruct D' as [|d' D''].
      * rewrite <- E1, ED. by rewrite pattern_single.
      * rewrite <- ED.
        destruct (exists_last HDne) as (D0 & x & HDx).
        assert (x = c /\ D0 ++ [x] = t) as [-> HDt].
        { rewrite HDx in E1. split; [|done]. rewrite Ht in E1.
          by apply last_snoc_eq in E1 as [_ ?]. }
        rewrite HDx in HD. rewrite forallb_app in HD.
        apply andb_true_iff in HD as [HD0 Hx]. cbn in Hx.
        rewrite andb_true_r in Hx.
        assert (D0 <> []) as HD0ne.
        { intros ->. rewrite ED in HDx. done. }
        rewrite <- HDt, pattern_digits by done.
        rewrite parseInt10_digits by done.
        rewrite trim_single by (by apply digit_not_space). cbn [nonempty].
        rewrite HDx, removelast_last, last_last. done.
    + rewrite <- ES in *. assert (S <> []) as HSne by (by rewrite ES).
      destruct (exists_last HSne) as (S0 & x & HSx).
      assert (x = c) as ->.
      { rewrite HSx, app_assoc, Ht in E1.
        by apply last_snoc_eq in E1 as [_ ?]. }
      rewrite HSx in HS. rewrite forallb_app in HS.
      apply andb_true_iff in HS as [HS0 Hx]. cbn in Hx.
      rewrite andb_true_r in Hx.
      rewrite <- E1, HSx, pattern_punct by done.
      rewrite parseInt10_digits by done.
      rewrite trim_single by done. cbn [nonempty].
      rewrite last_last. done.
  - rewrite <- EA in *. assert (A <> []) as HAne by (by rewrite EA).
    destruct (existsb is_line_terminator A) eqn:Hlt.
    + rewrite <- E1. rewrite pattern_none by done. done.
    + rewrite <- E1. rewrite pattern_answer by done.
      rewrite parseInt10_digits by done.
      destruct (exists_last HAne) as (A0 & x & HAx).
      assert (x = c) as ->.
      { rewrite HAx, !app_assoc, Ht in E1.
        by apply last_snoc_eq in E1 as [_ ?]. }
      assert (trim A = A) as ->.
      { rewrite EA in HhA. cbn in HhA.
        eapply (trim_id A a A' c); eauto using not_sep_not_space. }
      rewrite EA at 1. cbn [nonempty]. done.
Qed.

Lemma parse_line_entry answers line :
  parse_line answers line =
  match entry_of (trim line) with
  | Some (n, a) => <[n := a]> answers
  | None => answers
  end.
Proof.
  unfold parse_line, entry_of.
  destruct (trim line) as [|c t] eqn:Et.
  - reflexivity.
  - cbn [nonempty negb]. destruct (answer_pattern (c :: t)) as [[m1 m2]|]; [|done].
    destruct (parseInt10 m1); [|done]. by destruct (nonempty (trim m2)).
Qed.

Lemma parse_line_spec answers line :
  parse_line answers line =
  match line_spec line with
  | Some (n, a) => <[n := a]> answers
  | None => answers
  end.
Proof.
  rewrite parse_line_entry, line_spec_eq, entry_spec; [done|]. apply trim_shape.
Qed.

Lemma fold_parse_lookup ls (m : AnswerSet) n a :
  fold_left parse_line ls m !! n = Some a <->
  (exists pre l post, ls = pre ++ l :: post /\ line_spec l = Some (n, a) /\
                      Forall (no_entry n) post)
  \/ (m !! n = Some a /\ Forall (no_entry n) ls).
Proof.
  induction ls as [|l ls IH] using rev_ind.
  - cbn. split.
    + intros H. right. split; [done | constructor].
    + intros [(pre & l & post & H & _) | [H _]]; [|done].
      by destruct pre.
  - rewrite fold_left_app. cbn [fold_left]. rewrite parse_line_spec.
    destruct (line_spec l) as [[n' a']|] eqn:El.
    + destruct (decide (n' = n)) as [->|Hne].
      * rewrite lookup_insert_eq. split.
        -- intros [= ->]. left. exists ls, l, []. split_and!; [done | done | constructor].
        -- intros [(pre & l0 & post & H & Hl0 & Hpost) | [_ Hall]].
           ++ destruct post as [|p post _] using rev_ind.
              ** apply app_inj_tail in H as [_ <-]. congruence.
              ** rewrite app_comm_cons, app_assoc in H.
                 apply app_inj_tail in H as [_ <-].
                 apply Forall_app in Hpost as [_ Hp].
                 apply Forall_inv in Hp. by specialize (Hp a').
           ++ apply Forall_app in Hall as [_ Hp].
              apply Forall_inv in Hp. by specialize (Hp a').
      * rewrite lookup_insert_ne by done. rewrite IH. split.
        -- intros [(pre & l0 & post & -> & Hl0 & Hpost) | [Hm Hall]].
           ++ left. exists pre, l0, (post ++ [l]). split_and!; [by rewrite <- app_assoc | done |].
              apply Forall_app. split; [done|]. constructor; [|constructor].
              intros x. congruence.
           ++ right. split; [done|]. apply Forall_app. split; [done|].
              constructor; [|constructor]. intros x. congruence.
        -- intros [(pre & l0 & post & H & Hl0 & Hpost) | [Hm Hall]].
           ++ destruct post as [|p post _] using rev_ind.
              ** apply app_inj_tail in H as [_ <-]. congruence.
              ** rewrite app_comm_cons, app_assoc in H.
                 apply app_inj_tail in H as [-> <-].
                 apply Forall_app in Hpost as [Hpost _].
                 left. by exists pre, l0, post.
           ++ apply Forall_app in Hall as [Hall _]. by right.
    + rewrite IH. split.
      * intros [(pre & l0 & post & -> & Hl0 & Hpost) | [Hm Hall]].
        -- left. exists pre, l0, (post ++ [l]). split_and!; [by rewrite <- app_assoc | done |].
           apply Forall_app. split; [done|]. constructor; [|constructor].
           intros x. congruence.
        -- right. split; [done|]. apply Forall_app. split; [done|].
           constructor; [|constructor]. intros x. congruence.
      * intros [(pre & l0 & post & H & Hl0 & Hpost) | [Hm Hall]].
        -- destruct post as [|p post _] using rev_ind.
           ++ apply app_inj_tail in H as [_ <-]. congruence.
           ++ rewrite app_comm_cons, app_assoc in H.
              apply app_inj_tail in H as [-> <-].
              apply Forall_app in Hpost as [Hpost _].
              left. by exists pre, l0, post.
        -- apply Forall_app in Hall as [Hall _]. by right.
Qed.

(** ** The shape of a well-formed line *)
Lemma trim_pad pad1 X pad2 c X' :
  forallb is_space pad1 = true -> forallb is_space pad2 = true ->
  X = c :: X' -> is_space c = false -> is_space (List.last X 0%N) = false ->
  trim (pad1 ++ X ++ pad2) = X.
Proof.
  intros H1 H2 HX Hc Hl. unfold trim, trimStart, trimEnd.
  rewrite dropWhile_app_all; [| done | ].
  2:{ rewrite HX. cbn. done. }
  assert (X <> []) as Hne by (by rewrite HX).
  destruct (exists_last Hne) as (X0 & x & HXx).
  rewrite HXx, last_last in Hl.
  rewrite HXx, rev_app_distr, rev_app_distr. cbn [rev app].
  rewrite dropWhile_app_all.
  - cbn. rewrite rev_involutive. done.
  - rewrite forallb_forall in *. intros y Hy. apply H2. by apply in_rev.
  - cbn. done.
Qed.

Lemma spec_of_shape D S A :
  D <> [] -> forallb is_digit D = true -> forallb is_sep S = true ->
  A <> [] -> head_fails is_sep A -> head_fails is_digit (S ++ A) ->
  existsb is_line_terminator A = false ->
  spec_of (D ++ S ++ A) = Some (digits_value D, A).
Proof.
  intros HD Hd Hs HA HhA Hh Hlt. unfold spec_of.
  rewrite takeWhile_app_all, dropWhile_app_all by done.
  rewrite takeWhile_app_all, dropWhile_app_all by done.
  destruct D; [done|]. destruct A; [done|]. by rewrite Hlt.
Qed.

Lemma last_app_ne {B} (a b : list B) d : b <> [] -> List.last (a ++ b) d = List.last b d.
Proof.
  intros Hb. destruct (exists_last Hb) as (b0 & x & ->).
  by rewrite app_assoc, !last_last.
Qed.

Lemma line_spec_shape pad1 D S A pad2 :
  forallb is_space pad1 = true -> forallb is_space pad2 = true ->
  D <> [] -> forallb is_digit D = true -> forallb is_sep S = true ->
  answer_text A -> head_fails is_digit (S ++ A) ->
  line_spec (pad1 ++ D ++ S ++ A ++ pad2) = Some (digits_value D, A).
Proof.
  intros H1 H2 HD Hd Hs (HA & HhA & Hlt & Hlast) Hh.
  rewrite line_spec_eq.
  replace (pad1 ++ D ++ S ++ A ++ pad2) with (pad1 ++ (D ++ S ++ A) ++ pad2)
    by (by rewrite <- !app_assoc).
  destruct D as [|d D'] eqn:ED; [done|]. rewrite <- ED in *.
  assert (is_digit d = true) as Hd1.
  { rewrite ED in Hd. cbn in Hd. by apply andb_true_iff in Hd as [? _]. }
  rewrite (trim_pad pad1 (D ++ S ++ A) pad2 d (D' ++ S ++ A));
    [ | done | done | by rewrite ED | by apply digit_not_space
      | by rewrite app_assoc, last_app_ne ].
  apply spec_of_shape; done.
Qed.

(** ** Texts of one line *)
Lemma split_lines_single s :
  forallb (fun c => negb (c =? 10)%N) s = true -> split_lines s = [s].
Proof.
  induction s as [|c s IH]; cbn; [done|]. intros H.
  apply andb_true_iff in H as [Hc Hs]. apply negb_true_iff in Hc.
  rewrite Hc, (IH Hs). done.
Qed.

Lemma digit_not_newline c : is_digit c = true -> negb (c =? 10)%N = true.
Proof. intros H. classes. Qed.

(** C3 (amended).  For every text whose question numbers are safe
    integers, [parseNumberedAnswers] maps [n] to [a] exactly when some
    line contributes the entry [n -> a] and no later line contributes an
    entry for [n] (the last occurrence wins); what a line contributes is
    [line_spec]: lines that do not fit the pattern contribute nothing.
    A line [<N><sep*><answer>], with white space around it, a run of
    digits [N] (zero included), zero or more separator characters and a
    non-empty answer, contributes [N -> answer].  An argument that is
    not a non-empty string gives the empty mapping. *)
Theorem parseNumberedAnswers_lines :
  (forall text n a,
     Forall safe_line (split_lines text) ->
     (parseNumberedAnswers (JStr text) !! n = Some a <->
      exists pre l post,
        split_lines text = pre ++ l :: post /\
        line_spec l = Some (n, a) /\ Forall (no_entry n) post)) /\
  (forall pad1 D S A pad2,
     forallb is_space pad1 = true -> forallb is_space pad2 = true ->
     D <> [] -> forallb is_digit D = true ->
     (digits_value D <= MAX_SAFE_INTEGER)%Z ->
     forallb is_sep S = true -> answer_text A ->
     head_fails is_digit (S ++ A) ->
     line_spec (pad1 ++ D ++ S ++ A ++ pad2) = Some (digits_value D, A)) /\
  (forall v, (forall c s, v <> JStr (c :: s)) -> parseNumberedAnswers v = ∅).
Proof.
  split_and!.
  - intros text n a _. unfold parseNumberedAnswers.
    destruct text as [|c s].
    + rewrite lookup_empty. split; [done|].
      intros (pre & l & post & Hsplit & Hl & _). cbn in Hsplit.
      destruct pre as [|x pre]; [|by destruct pre].
      injection Hsplit as <- <-. done.
    + rewrite fold_parse_lookup, lookup_empty.
      split; [intros [?|[? _]]; done | by left].
  - intros pad1 D S A pad2 H1 H2 HD Hd _ Hs HA Hh.
    by apply line_spec_shape.
  - intros v Hv. destruct v as [| | | |[|c s]]; try done.
    by specialize (Hv c s).
Qed.

(** C3 at work: the second line for question 1 wins, and a padded line
    with a closing bracket as separator. *)
Lemma parseNumberedAnswers_lines_witness :
  parseNumberedAnswers (JStr (js "1. a" ++ [10%N] ++ js "1: b")) !! 1%Z
  = Some (js "b") /\
  line_spec (js "  2)   ok  ") = Some (2%Z, js "ok").
Proof.
  split.
  - apply (proj1 parseNumberedAnswers_lines).
    + repeat constructor; intros H; discriminate H.
    + exists [js "1. a"], (js "1: b"), [].
      split; [reflexivity | split; [reflexivity | constructor]].
  - apply (proj1 (proj2 parseNumberedAnswers_lines)
             (js "  ") (js "2") (js ")   ") (js "ok") (js "  "));
      [ reflexivity | reflexivity | discriminate | reflexivity
      | intros H; discriminate H | reflexivity
      | repeat split; discriminate | reflexivity ].
Defined.

(** C3, as stated, fails: the line ["1Yes"] has no separator, so it is
    not of the shape ["<N><sep><answer>"], and yet it contributes the
    entry [1 -> "Yes"]. *)
Lemma unseparated_line_is_parsed :
  ~ separated_shape (js "1Yes") /\
  parseNumberedAnswers (JStr (js "1Yes")) = {[ 1%Z := js "Yes" ]}.
Proof.
  split; [|vm_compute; reflexivity].
  intros (D & S & A & Ht & HD & Hd & _ & HS & Hs & _).
  change (trim (js "1Yes")) with [49; 89; 101; 115]%N in Ht.
  destruct D as [|d D]; [done|]. injection Ht as <- Ht.
  destruct D as [|d' D].
  - destruct S as [|s S]; [done|]. injection Ht as <- _. discriminate Hs.
  - injection Ht as <- _. discriminate Hd.
Qed.

(** C10.  A line of two or more digits and nothing else yields the
    entry (number formed by all digits but the last) -> (last digit),
    for a number within the safe integers. *)
Theorem bare_digits_entry (ds : jsstring) (d : jschar) :
  ds <> [] -> forallb is_digit ds = true -> is_digit d = true ->
  (digits_value ds <= MAX_SAFE_INTEGER)%Z ->
  parseNumberedAnswers (JStr (ds ++ [d])) = {[ digits_value ds := [d] ]}.
Proof.
  intros Hne Hd Hc _.
  assert (forallb is_digit (ds ++ [d]) = true) as Hall.
  { rewrite forallb_app, Hd. cbn. by rewrite Hc. }
  unfold parseNumberedAnswers. destruct (ds ++ [d]) as [|c0 s0] eqn:E.
  { by destruct ds. }
  rewrite <- E. rewrite split_lines_single.
  2:{ apply forallb_forall. intros x Hx. apply digit_not_newline.
      rewrite forallb_forall in Hall. apply Hall. by rewrite <- E. }
  rewrite <- E in Hall. clear E c0 s0.
  cbn [fold_left]. rewrite parse_line_spec, line_spec_eq.
  assert (trim (ds ++ [d]) = ds ++ [d]) as ->.
  { destruct ds as [|d0 ds']; [done|]. cbn in Hd.
    apply andb_true_iff in Hd as [Hd0 _].
    eapply (trim_id _ d0 (ds' ++ [d]) d); eauto using digit_not_space. }
  assert (takeWhile is_digit (ds ++ [d]) = ds ++ [d]) as E1
    by (rewrite <- (app_nil_r (ds ++ [d])) at 1; by apply takeWhile_app_all).
  assert (dropWhile is_digit (ds ++ [d]) = []) as E2
    by (rewrite <- (app_nil_r (ds ++ [d])); by apply dropWhile_app_all).
  unfold spec_of. rewrite E1, E2. cbn [takeWhile dropWhile].
  destruct ds as [|d0 ds']; [done|]. cbn [app].
  destruct (ds' ++ [d]) as [|x y] eqn:E3; [by destruct ds'|]. rewrite <- E3.
  change (d0 :: ds' ++ [d]) with ((d0 :: ds') ++ [d]).
  rewrite removelast_last, last_last. done.
Qed.

(** C10 at work: [parseNumberedAnswers("123")] is [{12: "3"}]. *)
Lemma bare_digits_entry_witness :
  parseNumberedAnswers (JStr (js "123")) = {[ 12%Z := js "3" ]}.
Proof.
  apply (bare_digits_entry (js "12") 51%N);
    [discriminate | reflexivity | reflexivity | intros H; discriminate H].
Defined.


(* ================================================================= *)
(** ** Correlating answers with questions *)

Lemma match_from_step answers index question rest acc :
  match_from answers index (question :: rest) acc =
  match_from answers (S index) rest
    (match answer_at answers index with
     | Some a => set_property question a acc
     | None => acc
     end).
Proof.
  cbn [match_from]. unfold answer_at. f_equal.
  destruct (answers !! (Z.of_nat index + 1)%Z) as [a|]; [|done].
  by destruct (nonempty a).
Qed.

Lemma set_property_lookup key value o q :
  set_property key value o !! q =
  if decide (key = js "__proto__") then o !! q
  else if decide (key = q) then Some value else o !! q.
Proof.
  unfold set_property. destruct (decide (key = js "__proto__")); [done|].
  destruct (decide (key = q)) as [->|Hne].
  - by rewrite lookup_insert_eq.
  - by rewrite lookup_insert_ne.
Qed.

Lemma no_hit_cons answers base q0 rest q :
  no_hit answers base (q0 :: rest) q <->
  (q0 = q -> answer_at answers base = None) /\ no_hit answers (S base) rest q.
Proof.
  unfold no_hit. split.
  - intros H. split.
    + intros ->. specialize (H 0 eq_refl). by rewrite Nat.add_0_r in H.
    + intros j Hj. specialize (H (S j) Hj). by rewrite Nat.add_succ_r in H.
  - intros [H0 H] [|j] Hj.
    + cbn in Hj. injection Hj as ->. rewrite Nat.add_0_r. by apply H0.
    + rewrite Nat.add_succ_r. by apply H.
Qed.

Lemma last_hit_cons answers base q0 rest q a :
  last_hit answers base (q0 :: rest) q a <->
  (q0 = q /\ answer_at answers base = Some a /\ no_hit answers (S base) rest q)
  \/ last_hit answers (S base) rest q a.
Proof.
  unfold last_hit, no_hit. split.
  - intros ([|i] & Hi & Ha & Hl).
    + left. cbn in Hi. injection Hi as ->. rewrite Nat.add_0_r in Ha.
      split_and!; [done | done |]. intros j Hj.
      specialize (Hl (S j) ltac:(lia) Hj). by rewrite Nat.add_succ_r in Hl.
    + right. exists i. rewrite Nat.add_succ_r in Ha. split_and!; [done | done |].
      intros j Hlt Hj. specialize (Hl (S j) ltac:(lia) Hj).
      by rewrite Nat.add_succ_r in Hl.
  - intros [(-> & Ha & Hno) | (i & Hi & Ha & Hl)].
    + exists 0. rewrite Nat.add_0_r. split_and!; [done | done |].
      intros [|j] Hlt Hj; [lia|]. rewrite Nat.add_succ_r. by apply Hno.
    + exists (S i). rewrite Nat.add_succ_r. split_and!; [done | done |].
      intros [|j] Hlt Hj; [lia|]. rewrite Nat.add_succ_r. apply Hl; [lia | done].
Qed.

Lemma match_from_lookup answers qs : forall base acc q a,
  match_from answers base qs acc !! q = Some a <->
  (q <> js "__proto__" /\ last_hit answers base qs q a) \/
  (acc !! q = Some a /\ (q = js "__proto__" \/ no_hit answers base qs q)).
Proof.
  induction qs as [|q0 rest IH]; intros base acc q a.
  - cbn. split.
    + intros H. right. split; [done|]. right. intros j Hj. done.
    + intros [[_ (i & Hi & _)] | [H _]]; done.
  - rewrite match_from_step, IH, last_hit_cons, no_hit_cons. clear IH.
    destruct (answer_at answers base) as [a0|] eqn:E0.
    + rewrite set_property_lookup.
      destruct (decide (q0 = js "__proto__")) as [Hp|Hp];
        [|destruct (decide (q0 = q)) as [Hq|Hq]];
        destruct (decide (q = js "__proto__"));
        intuition (subst; congruence).
    + intuition (subst; congruence).
Qed.

Lemma matchAnswersToQuestions_lookup qs answers q a :
  matchAnswersToQuestions (Some qs) (Some answers) !! q = Some a <->
  q <> js "__proto__" /\ last_hit answers 0 qs q a.
Proof.
  unfold matchAnswersToQuestions. destruct qs as [|q0 qs].
  - rewrite lookup_empty. split; [done|]. intros [_ (i & Hi & _)]. done.
  - rewrite match_from_lookup, lookup_empty.
    split; [intros [?|[? _]]; done | by left].
Qed.

Lemma matchAnswersToQuestions_distinct qs answers i q :
  NoDup qs -> qs !! i = Some q -> q <> js "__proto__" ->
  matchAnswersToQuestions (Some qs) (Some answers) !! q = answer_at answers i.
Proof.
  intros Hnd Hi Hq. apply option_eq. intros a.
  rewrite matchAnswersToQuestions_lookup. unfold last_hit. cbn [Nat.add].
  split.
  - intros [_ (i' & Hi' & Ha & _)].
    by rewrite (NoDup_lookup _ _ _ _ Hnd Hi Hi').
  - intros Ha. split; [done|]. exists i. split_and!; [done | done |].
    intros j Hlt Hj. pose proof (NoDup_lookup _ _ _ _ Hnd Hi Hj). lia.
Qed.

(** C4 (amended).  For a question text [q] other than ["__proto__"],
    the result maps [q] to [a] exactly when [a] is the truthy
    [answerSet[i+1]] of the last position [i] that holds [q] and has a
    truthy answer; for pairwise distinct questions this is: the pair
    (question at [i] -> [answerSet[i+1]]) is included exactly when
    [answerSet[i+1]] is present and truthy.  So an answer index without
    a question is dropped and a question without an answer is omitted.
    Without an array of questions, with an empty one, or without an
    answer object the result is empty. *)
Theorem matchAnswersToQuestions_pairs :
  (forall qs answers q a,
     q <> js "__proto__" ->
     (matchAnswersToQuestions (Some qs) (Some answers) !! q = Some a <->
      exists i, qs !! i = Some q /\ answer_at answers i = Some a /\
                forall j, i < j -> qs !! j = Some q ->
                          answer_at answers j = None)) /\
  (forall qs answers i q,
     NoDup qs -> qs !! i = Some q -> q <> js "__proto__" ->
     matchAnswersToQuestions (Some qs) (Some answers) !! q
     = answer_at answers i) /\
  (forall answers,
     matchAnswersToQuestions None answers = ∅ /\
     matchAnswersToQuestions (Some []) answers = ∅) /\
  (forall qs, matchAnswersToQuestions qs None = ∅).
Proof.
  split_and!.
  - intros qs answers q a Hq. rewrite matchAnswersToQuestions_lookup.
    unfold last_hit. cbn [Nat.add]. tauto.
  - intros qs answers i q. apply matchAnswersToQuestions_distinct.
  - done.
  - intros [[|q qs]|]; done.
Qed.

(** C4 at work: answer 1 goes to the first question, answer 5 to none,
    and the second question is left out. *)
Lemma matchAnswersToQuestions_pairs_witness :
  matchAnswersToQuestions (Some [js "Q1"; js "Q2"])
    (Some (<[1%Z := js "A"]> {[ 5%Z := js "Z" ]})) !! js "Q1"
  = Some (js "A") /\
  matchAnswersToQuestions (Some [js "Q1"; js "Q2"])
    (Some (<[1%Z := js "A"]> {[ 5%Z := js "Z" ]})) !! js "Q2"
  = None.
Proof.
  split.
  - rewrite (proj1 (proj2 matchAnswersToQuestions_pairs)
               [js "Q1"; js "Q2"] _ 0 (js "Q1"));
      [ reflexivity | apply (bool_decide_unpack _); vm_compute; exact I
      | reflexivity | discriminate ].
  - rewrite (proj1 (proj2 matchAnswersToQuestions_pairs)
               [js "Q1"; js "Q2"] _ 1 (js "Q2"));
      [ reflexivity | apply (bool_decide_unpack _); vm_compute; exact I
      | reflexivity | discriminate ].
Defined.

(** C4, as stated, fails.  With the same question text at two positions
    the answer of the first position is not in the result although it
    is present and truthy; and a question ["__proto__"] is not in the
    result although its answer is present and truthy. *)
Lemma duplicate_question_keeps_last :
  (let qs := [js "Q"; js "Q"] in
   let answers : AnswerSet := <[1%Z := js "A"]> {[ 2%Z := js "B" ]} in
   qs !! 0 = Some (js "Q") /\ answer_at answers 0 = Some (js "A") /\
   matchAnswersToQuestions (Some qs) (Some answers) !! js "Q"
   = Some (js "B")) /\
  (let answers : AnswerSet := {[ 1%Z := js "A" ]} in
   answer_at answers 0 = Some (js "A") /\
   matchAnswersToQuestions (Some [js "__proto__"]) (Some answers) = ∅).
Proof. vm_compute. repeat split. Qed.


(* ================================================================= *)
(** ** The insertion-ordered map *)

Section MapFacts.
Context {K V : Type} `{EqDecision K}.
Implicit Types (m : list (K * V)).

Lemma mget_mset k k' v m :
  mget k' (mset k v m) = if decide (k' = k) then Some v else mget k' m.
Proof.
  induction m as [|[k0 v0] m IH]; cbn.
  - by destruct (decide (k' = k)).
  - destruct (decide (k = k0)) as [->|Hne]; cbn.
    + destruct (decide (k' = k0)); done.
    + rewrite IH. destruct (decide (k' = k0)) as [->|]; [|done].
      destruct (decide (k0 = k)); [congruence | done].
Qed.

Lemma mget_mdelete k k' m :
  mget k' (mdelete k m) = if decide (k' = k) then None else mget k' m.
Proof.
  induction m as [|[k0 v0] m IH]; cbn.
  - by destruct (decide (k' = k)).
  - destruct (decide (k = k0)) as [->|Hne]; cbn.
    + rewrite IH. destruct (decide (k' = k0)); done.
    + rewrite IH. destruct (decide (k' = k0)) as [->|]; [|done].
      destruct (decide (k0 = k)); [congruence | done].
Qed.


Lemma mget_None_keys k m : mget k m = None <-> ~ In k (keys m).
Proof.
  unfold keys. induction m as [|[k0 v0] m IH]; cbn; [tauto|].
  destruct (decide (k = k0)) as [->|Hne]; [split; [done | tauto]|].
  rewrite IH. split; [intros ? [?|?]; [congruence | tauto] | tauto].
Qed.

Lemma keys_mset k v m :
  keys (mset k v m) =
  match mget k m with Some _ => keys m | None => keys m ++ [k] end.
Proof.
  unfold keys. induction m as [|[k0 v0] m IH]; cbn; [done|].
  destruct (decide (k = k0)) as [->|Hne]; cbn; [done|].
  rewrite IH. by destruct (mget k m).
Qed.

Lemma keys_mset_NoDup k v m : List.NoDup (keys m) -> List.NoDup (keys (mset k v m)).
Proof.
  intros Hnd. rewrite keys_mset. destruct (mget k m) eqn:E; [done|].
  apply mget_None_keys in E.
  apply NoDup_rev in Hnd. rewrite <- (rev_involutive (keys m ++ [k])).
  apply NoDup_rev. rewrite rev_app_distr. cbn. constructor; [|done].
  by rewrite <- in_rev.
Qed.

Lemma keys_mdelete_In k k' m : In k' (keys (mdelete k m)) -> In k' (keys m).
Proof.
  unfold keys. induction m as [|[k0 v0] m IH]; cbn; [done|].
  destruct (decide (k = k0)); cbn; tauto.
Qed.

Lemma keys_mdelete_NoDup k m :
  List.NoDup (keys m) -> List.NoDup (keys (mdelete k m)).
Proof.
  pose proof (keys_mdelete_In k) as Hsub.
  unfold keys in *. induction m as [|[k0 v0] m IH]; cbn; [done|].
  intros Hnd. apply NoDup_cons_iff in Hnd as [Hin Hnd].
  destruct (decide (k = k0)); cbn; [auto|].
  constructor; [|auto]. intros Hc. apply Hin. by eapply Hsub.
Qed.


End MapFacts.

(* ================================================================= *)
(** ** The email state manager *)

Section EmailStateFacts.
Import EmailState.

Lemma exec_NoDup st o :
  List.NoDup (keys (activeEmails st)) ->
  List.NoDup (keys (activeEmails (exec st o))).
Proof.
  intros Hnd. destruct o as [now c d | now c | c]; cbn.
  - unfold storeEmail. destruct d as [r|]; [|done].
    destruct (truthy c); cbn; [|done]. by apply keys_mset_NoDup.
  - unfold getEmail. destruct (truthy c); cbn; [|done].
    destruct (mget _ _) as [r|]; [|done].
    destruct (expired now st r); cbn; [|done]. by apply keys_mdelete_NoDup.
  - unfold clearEmail. destruct (truthy c); cbn; [|done].
    by apply keys_mdelete_NoDup.
Qed.

Lemma run_NoDup ops : forall st,
  List.NoDup (keys (activeEmails st)) ->
  List.NoDup (keys (activeEmails (fold_left exec ops st))).
Proof.
  induction ops as [|o ops IH]; intros st Hnd; cbn; [done|].
  apply IH. by apply exec_NoDup.
Qed.

(** C5.  When the state stored for a chat id is older than 24 hours at
    the time of the read, [getEmail] returns nothing and deletes the
    entry (and only the entry: the heap is untouched); the entry is then
    absent, and a repeated read at any time returns nothing again and
    changes nothing. *)
Theorem getEmail_lazy_expiry (now : Z) (chatId : jsval) (st : State)
  (r : ref) (ts : Z) :
  truthy chatId = true ->
  mget (String_ chatId) (activeEmails st) = Some r ->
  timestamp_of st r = Some ts ->
  (now - ts > expiryTime)%Z ->
  let st' := (getEmail now chatId st).2 in
  (getEmail now chatId st).1 = None /\
  activeEmails st' = mdelete (String_ chatId) (activeEmails st) /\
  heap st' = heap st /\
  mget (String_ chatId) (activeEmails st') = None /\
  forall now', getEmail now' chatId st' = (None, st').
Proof.
  intros Ht Hget Hts Hold.
  assert (getEmail now chatId st =
          (None, mkState (mdelete (String_ chatId) (activeEmails st)) (heap st)))
    as E.
  { unfold getEmail, expired. rewrite Ht, Hget, Hts. cbn [negb].
    destruct (Z.gtb_spec (now - ts) expiryTime); [done | lia]. }
  rewrite E. cbn.
  assert (mget (String_ chatId) (mdelete (String_ chatId) (activeEmails st))
          = None) as Hgone.
  { rewrite mget_mdelete. by destruct (decide _). }
  split_and!; try done.
  intros now'. unfold getEmail. rewrite Ht. cbn. by rewrite Hgone.
Qed.

(** C5 at work: a state stamped at 1000 ms, read 24 hours and one
    millisecond later. *)
Lemma getEmail_lazy_expiry_witness :
  (getEmail 86401001 (JNum 42) demo_state).1 = None /\
  forall now', getEmail now' (JNum 42) (getEmail 86401001 (JNum 42) demo_state).2
               = (None, (getEmail 86401001 (JNum 42) demo_state).2).
Proof.
  pose proof (getEmail_lazy_expiry 86401001 (JNum 42) demo_state 1%N 1000%Z
                eq_refl eq_refl eq_refl eq_refl) as H.
  cbv zeta in H. destruct H as (H1 & _ & _ & _ & H5). split; [exact H1 | exact H5].
Defined.





End EmailStateFacts.

(* ================================================================= *)
(** ** The polling loop *)

Section PollingFacts.
Context {H : Type}.
Variable handleUpdate : Update -> H -> H * Outcome.
Variable interval : Q.

Lemma pollOnce_conflict st h message j :
  isPollingActive st = true -> is_conflict message = true ->
  pollOnce handleUpdate interval st h (FetchThrows message) j =
  let '(st', n) := on_conflict st j in (st', h, [], n).
Proof. intros Ha Hc. unfold pollOnce. rewrite Ha. cbn. by rewrite Hc. Qed.

Lemma pollOnce_idle st h f j :
  isPollingActive st = false ->
  pollOnce handleUpdate interval st h f j = (st, h, [], Idle).
Proof. intros Ha. unfold pollOnce. by rewrite Ha. Qed.

(** From [count] earlier conflicts, the next [11 - count] conflicts:
    all but the last back off, the last one stops. *)
Lemma run_conflicts_stop more : forall errors st h,
  Forall conflict_error errors ->
  isPollingActive st = true ->
  (0 <= retryCount st)%Z ->
  (retryCount st + Z.of_nat (length errors) = 11)%Z ->
  errors <> [] ->
  exists st',
    run handleUpdate interval st h (conflicts errors ++ more) =
    (st', h,
     zip_with (fun b j => Backoff (b + j)%Q)
       (backoff_bases (retryDelay st) (removelast errors.*2))
       (removelast errors.*2) ++ [Stop]) /\
    isPollingActive st' = false.
Proof.
  induction errors as [|[message j] es IH]; intros st h Hc Ha H0 Hlen Hne;
    [done|].
  apply Forall_cons in Hc as [Hc Hcs].
  cbn [conflicts List.map app run fst snd].
  rewrite pollOnce_conflict by done. unfold on_conflict.
  destruct es as [|[message' j'] es].
  - cbn in Hlen. assert (retryCount st = 10)%Z as -> by lia. cbn.
    eexists. split; reflexivity.
  - cbn [length] in Hlen.
    destruct (Z.gtb_spec (retryCount st + 1) 10) as [Hgt|Hle]; [lia|].
    cbn [fmap list_fmap removelast backoff_bases zip_with fst snd].
    set (st1 := mkPoll _ _ _ _).
    destruct (IH st1 h) as (st' & Hrun & Hst'); try done.
    + subst st1. cbn. lia.
    + subst st1. cbn. cbn [length] in *. lia.
    + fold (conflicts ((message', j') :: es)). rewrite Hrun.
      exists st'. split; [|done]. reflexivity.
Qed.

Lemma backoff_bases_bound : forall jitters prev i b,
  backoff_bases prev jitters !! i = Some b -> (b <= 60000)%Q.
Proof.
  induction jitters as [|j js IH]; intros prev [|i] b Hb; try done.
  - cbn in Hb. injection Hb as <-. apply Q.le_min_l.
  - cbn in Hb. by eapply IH.
Qed.

Lemma backoff_bases_monotone : forall jitters prev i b b',
  (0 <= prev)%Q -> Forall jitter_ok jitters ->
  backoff_bases prev jitters !! i = Some b ->
  backoff_bases prev jitters !! (S i) = Some b' -> (b <= b')%Q.
Proof.
  induction jitters as [|j js IH]; intros prev i b b' Hprev Hj Hb Hb'; [done|].
  apply Forall_cons in Hj as [[Hj0 Hj1] Hjs].
  assert (0 <= Qmin 60000 (prev * (3 # 2)))%Q as Hbase.
  { apply Q.min_glb; lra. }
  destruct i as [|i].
  - cbn in Hb. injection Hb as <-.
    destruct js as [|j2 js]; [done|]. cbn in Hb'. injection Hb' as <-.
    apply Q.min_glb; [apply Q.le_min_l|]. lra.
  - cbn in Hb, Hb'.
    apply (IH (Qmin 60000 (prev * (3 # 2)) + j)%Q i); [lra | done | done | done].
Qed.

Lemma pollOnce_success st h updates j :
  isPollingActive st = true ->
  exists st' h' seen,
    pollOnce handleUpdate interval st h (FetchResult updates) j =
    (st', h', seen, Reschedule interval) /\
    retryCount st' = 0%Z /\ retryDelay st' = 5000%Q /\
    isPollingActive st' = true.
Proof.
  intros Ha. unfold pollOnce. rewrite Ha. cbn [negb].
  destruct updates as [|u us]; cbn [getUpdates].
  - cbn. eexists _, _, _. split; [reflexivity|]. by cbn.
  - destruct (process_updates handleUpdate (u :: us) h) as [[h' seen] fin].
    eexists _, _, _. split; [reflexivity|]. by cbn.
Qed.

End PollingFacts.

(** When no rejection is [null] or [undefined], every update of the
    batch is handed to the handler, in the order received. *)
Lemma process_updates_all {H} (handleUpdate : Update -> H -> H * Outcome) :
  (forall u h, (handleUpdate u h).2 <> Rejected Nullish) ->
  forall updates h,
    process_updates handleUpdate updates h =
    (fold_left (fun h u => (handleUpdate u h).1) updates h, updates, true).
Proof.
  intros Hok. induction updates as [|u us IH]; intros h; cbn; [done|].
  specialize (Hok u h). destruct (handleUpdate u h) as [h1 o]. cbn in *.
  destruct o as [|[m|]]; [| |done]; by rewrite IH.
Qed.

(** C2.  From the state a start or a successful fetch leaves (loop
    active, retry counter 0, delay at the 5000 ms base), 11 consecutive
    conflict errors are answered by ten back-offs and then a stop: the
    phases are ten times BACKOFF and then STOPPED, the active flag is
    off, nothing is scheduled any more (whatever the provider would
    answer next is never asked for), and a stray run of [pollOnce]
    returns at once.  The delay of each back-off is its base
    [min(60000, previousDelay * 1.5)] plus the jitter drawn in
    [0, 1000); the bases never exceed 60000 and never decrease.  A
    successful fetch puts the counter back to 0 and the delay back to
    5000. *)
Theorem eleven_conflicts_stop {H} (handleUpdate : Update -> H -> H * Outcome)
  (interval : Q) (st : PollState) (h : H)
  (errors : list (jsstring * Q)) (more : list (Fetch * Q)) :
  Forall conflict_error errors ->
  isPollingActive st = true -> retryCount st = 0%Z -> retryDelay st = 5000%Q ->
  length errors = 11 -> Forall jitter_ok errors.*2 ->
  let jitters := take 10 errors.*2 in
  let bases := backoff_bases 5000 jitters in
  let scheduled :=
    zip_with (fun b j => Backoff (b + j)%Q) bases jitters ++ [Stop] in
  exists st',
    run handleUpdate interval st h (conflicts errors ++ more)
    = (st', h, scheduled) /\
    List.map phase_of scheduled = replicate 10 BACKOFF ++ [STOPPED] /\
    isPollingActive st' = false /\
    (forall f j, pollOnce handleUpdate interval st' h f j = (st', h, [], Idle)) /\
    (forall i b, bases !! i = Some b ->
       (b <= 60000)%Q /\ forall b', bases !! S i = Some b' -> (b <= b')%Q) /\
    (forall st0 h0 updates j, isPollingActive st0 = true ->
       exists st1 h1 seen,
         pollOnce handleUpdate interval st0 h0 (FetchResult updates) j
         = (st1, h1, seen, Reschedule interval) /\
         retryCount st1 = 0%Z /\ retryDelay st1 = 5000%Q).
Proof.
  intros Hc Ha Hrc Hrd Hlen Hj jitters bases scheduled.
  destruct (run_conflicts_stop handleUpdate interval more errors st h)
    as (st' & Hrun & Hst');
    [done | done | lia | by rewrite Hrc, Hlen | by destruct errors |].
  assert (removelast errors.*2 = jitters) as Hrl.
  { subst jitters. by rewrite removelast_firstn_len, length_fmap, Hlen. }
  rewrite Hrl, Hrd in Hrun.
  exists st'. split_and!; [done | | done | | |].
  - subst scheduled bases jitters.
    do 11 (destruct errors as [|? errors]; [done|]).
    destruct errors; [|done]. reflexivity.
  - intros f j. by apply pollOnce_idle.
  - intros i b Hb. split.
    + by eapply backoff_bases_bound.
    + intros b' Hb'. eapply (backoff_bases_monotone jitters 5000%Q i);
        [lra | | done | done].
      rewrite <- (take_drop 10 errors.*2) in Hj.
      by apply Forall_app in Hj as [? _].
  - intros st0 h0 updates j Ha0.
    destruct (pollOnce_success handleUpdate interval st0 h0 updates j Ha0)
      as (st1 & h1 & seen & E & ? & ? & _).
    by exists st1, h1, seen.
Qed.

Lemma demo_jitters_ok : Forall jitter_ok demo_jitters.
Proof. repeat constructor; unfold jitter_ok; lra. Qed.

Lemma demo_errors_conflict : Forall conflict_error demo_errors.
Proof. repeat constructor. Qed.

(** C2 at work: eleven conflicts with jitters from 0 to 999 ms, and a
    twelfth answer that is never asked for. *)
Lemma eleven_conflicts_stop_witness :
  exists st',
    run (fun (_ : Update) (h : unit) => (h, Resolved)) 2000%Q started tt
        (conflicts demo_errors ++ [(FetchResult [], 0%Q)])
    = (st', tt,
       zip_with (fun b j => Backoff (b + j)%Q)
         (backoff_bases 5000 (take 10 demo_jitters)) (take 10 demo_jitters)
       ++ [Stop]) /\
    isPollingActive st' = false.
Proof.
  destruct (eleven_conflicts_stop (fun (_ : Update) (h : unit) => (h, Resolved))
              2000%Q started tt demo_errors [(FetchResult [], 0%Q)]
              demo_errors_conflict eq_refl eq_refl eq_refl eq_refl
              demo_jitters_ok)
    as (st' & Hrun & _ & Hst & _).
  exists st'. split; [exact Hrun | exact Hst].
Defined.

(** C8.  A rejection of [handleUpdate] for one update is caught at
    that update.  For a handler that rejects with error objects (every
    [throw] of the repository throws [new Error]; what the catch clause
    does with a thrown [null] or [undefined] is outside this claim), a
    fetched batch is handed to the handler as a whole, whichever of its
    updates are rejected: the updates handed over are those of the
    batch in the order received, each once, the handler's state is
    threaded through all of them, and the next poll is scheduled at the
    regular interval with the retry counter and the delay reset. *)
Theorem dispatch_failures_are_isolated {H}
  (handleUpdate : Update -> H -> H * Outcome) (interval : Q)
  (st : PollState) (h : H) (updates : list Update) (j : Q) :
  isPollingActive st = true ->
  (forall u h, (handleUpdate u h).2 <> Rejected Nullish) ->
  pollOnce handleUpdate interval st h (FetchResult updates) j
  = (mkPoll (match updates with
             | [] => lastUpdateId st
             | u :: us => max_update_id u us
             end) true 0 5000%Q,
     fold_left (fun h u => (handleUpdate u h).1) updates h,
     updates, Reschedule interval).
Proof.
  intros Ha Hok. unfold pollOnce. rewrite Ha. cbn [negb].
  destruct updates as [|u us]; cbn [getUpdates].
  - cbn. by rewrite Ha.
  - rewrite (process_updates_all handleUpdate Hok). cbn. by rewrite Ha.
Qed.

(** C8 at work: the handler throws an [Error] for update 1; updates 2
    and 3 are handled behind it. *)
Lemma dispatch_failures_are_isolated_witness :
  pollOnce throwing_handler 2000%Q started []
           (FetchResult [upd 1; upd 2; upd 3]) 0%Q
  = (mkPoll 3 true 0 5000%Q, [1%Z; 2%Z; 3%Z], [upd 1; upd 2; upd 3],
     Reschedule 2000%Q).
Proof.
  refine (dispatch_failures_are_isolated throwing_handler 2000%Q started []
            [upd 1; upd 2; upd 3] 0%Q eq_refl _).
  intros u h. unfold throwing_handler. cbn.
  destruct (update_id u =? 1)%Z; discriminate.
Defined.


(* ================================================================= *)
(** ** The webhook *)

Section RouteFacts.
Variable w : World.

Lemma webhook_candidate u msg data m :
  answer_candidate u msg data ->
  webhook w u m =
  let '(_, s) :=
    match mget (chat_id msg) m with
    | Some emailData => reply_flow w (chat_id msg) emailData data
    | None => sendMessage w (chat_id msg) NoActiveEmail
    end (mkH m [] 0) in
  (200%Z, store s, trace s).
Proof.
  intros (Hid & Hmsg & c & s & Htext & Hslash & ->).
  unfold webhook. apply Z.eqb_neq in Hid. rewrite Hid.
  unfold webhook_body. rewrite Hmsg, Htext. cbn [or_default startsWith_slash].
  rewrite Hslash. unfold handleIncomingMessage. rewrite Htext.
  unfold mbind, M_bind, bind, get_store. cbn [store].
  destruct (mget (chat_id msg) m); reflexivity.
Qed.

Lemma reply_flow_run c e data m :
  let email := ensure_fields (originalEmail e) in
  let answers := matchAnswersToQuestions (Some (questions e)) (Some data) in
  let kept := mset c (mkActive email (questions e) (timestamp e)) m in
  let gen := CallGenerateReply email answers in
  let s' := (reply_flow w c e data (mkH m [] 0)).2 in
  match generateReply w email answers with
  | Rejects (ErrorObject _) =>
      store s' = kept /\ trace s' = [gen; CallSendMessage c GenerationError]
  | Rejects Nullish => store s' = kept /\ trace s' = [gen]
  | Reply r =>
      let draft := CallCreateDraft (threadId email) (sender email)
                     (subject email) r in
      let ok := createDraft w (threadId email) (sender email) (subject email) r
      in
      if sent w c 0 then
        if ok then
          if sent w c 1 then
            store s' = mdelete c kept /\
            trace s' = [gen; CallSendMessage c (DraftReply r); draft;
                        CallSendMessage c DraftSaved]
          else if sent w c 2 then
            store s' = mdelete c kept /\
            trace s' = [gen; CallSendMessage c (DraftReply r); draft;
                        CallSendMessage c DraftSaved;
                        CallSendMessage c DraftNotSaved]
          else
            store s' = kept /\
            trace s' = [gen; CallSendMessage c (DraftReply r); draft;
                        CallSendMessage c DraftSaved;
                        CallSendMessage c DraftNotSaved;
                        CallSendMessage c GenerationError]
        else
          if sent w c 1 then
            store s' = mdelete c kept /\
            trace s' = [gen; CallSendMessage c (DraftReply r); draft;
                        CallSendMessage c DraftNotSaved]
          else
            store s' = kept /\
            trace s' = [gen; CallSendMessage c (DraftReply r); draft;
                        CallSendMessage c DraftNotSaved;
                        CallSendMessage c GenerationError]
      else
        store s' = kept /\
        trace s' = [gen; CallSendMessage c (DraftReply r);
                    CallSendMessage c GenerationError]
  end.
Proof.
  intros email answers kept gen s'. subst s'.
  unfold reply_flow, try_catch, callGenerateReply, callCreateDraft,
    sendMessage, read_message, fail_unless, throw, log, get_store, put_store,
    mbind, M_bind, bind, ret, sent.
  fold email. fold answers. subst kept gen. clearbody email answers. cbn.
  destruct (generateReply w email answers) as [r|[msg|]]; cbn; [|done|done].
  destruct (truthy c && sendOutcome w 0); cbn; [|done].
  destruct (createDraft w _ _ _ r); cbn.
  - destruct (truthy c && sendOutcome w 1); cbn; [done|].
    destruct (truthy c && sendOutcome w 2); cbn; done.
  - destruct (truthy c && sendOutcome w 1); cbn; done.
Qed.

End RouteFacts.

(** C1 (amended).  For a reply to questions from a chat with a stored
    email, the webhook answers 200 and first calls the reply generator.
    If the generator returns a reply, the state is cleared exactly when
    the reply was sent and a message about the draft was sent after it
    (the first one, or the second one after a created draft whose
    confirmation could not be sent), whether the draft itself was
    created or not; whenever the state is not cleared, the last call is
    the attempt to send the error notice.  If the generator fails, the
    state stays, with the defaults for missing email fields filled in,
    and for a failure with an error object the only other call is the
    error notice. *)
Theorem reply_flow_clears_state (w : World) (u : Update) (msg : Message)
  (data : AnswerSet) (m : Store) (e : ActiveEmail) :
  answer_candidate u msg data ->
  mget (chat_id msg) m = Some e ->
  let c := chat_id msg in
  let email := ensure_fields (originalEmail e) in
  let answers := matchAnswersToQuestions (Some (questions e)) (Some data) in
  let status := (webhook w u m).1.1 in
  let m' := (webhook w u m).1.2 in
  let tr := (webhook w u m).2 in
  status = 200%Z /\
  head tr = Some (CallGenerateReply email answers) /\
  match generateReply w email answers with
  | Reply r =>
      let drafted :=
        createDraft w (threadId email) (sender email) (subject email) r in
      (mget c m' = None <->
       sent w c 0 = true /\
       (sent w c 1 = true \/ (drafted = true /\ sent w c 2 = true))) /\
      (mget c m' <> None ->
       List.last tr (CallSendMessage c NoActiveEmail)
       = CallSendMessage c GenerationError)
  | Rejects reason =>
      mget c m' = Some (mkActive email (questions e) (timestamp e)) /\
      forall message, reason = ErrorObject message ->
        tr = [CallGenerateReply email answers;
              CallSendMessage c GenerationError]
  end.
Proof.
  intros Hcand Hget c email answers status m' tr.
  subst status m' tr. rewrite (webhook_candidate w u msg data m Hcand), Hget.
  pose proof (reply_flow_run w c e data m) as Hrun. cbv zeta in Hrun.
  fold c. fold email in Hrun |- *. fold answers in Hrun |- *.
  destruct (reply_flow w c e data {| store := m; trace := []; sends := 0 |})
    as [res s'].
  cbn [fst snd] in *.
  assert (forall v, mget c (mset c v m) = Some v) as Hkept.
  { intros v. rewrite mget_mset. by destruct (decide _). }
  assert (forall v, mget c (mdelete c (mset c v m)) = None) as Hgone.
  { intros v. rewrite mget_mdelete. by destruct (decide _). }
  destruct (generateReply w email answers) as [r|[message|]].
  - destruct (sent w c 0);
      [destruct (createDraft w _ _ _ r);
       [destruct (sent w c 1); [|destruct (sent w c 2)] | destruct (sent w c 1)]
      |];
      destruct Hrun as [-> ->]; rewrite ?Hkept, ?Hgone;
      (split; [done|]); (split; [done|]); split;
      try done; intuition congruence.
  - destruct Hrun as [-> ->]. rewrite Hkept. by split_and!.
  - destruct Hrun as [-> ->]. rewrite Hkept. by split_and!.
Qed.

Lemma demo_candidate chat :
  answer_candidate (demo_update chat)
    (mkMessage chat (Some (js "1. 1300")) (JNum 9))
    (parseNumberedAnswers (JStr (js "1. 1300"))).
Proof.
  split; [done|]. split; [done|]. by exists 49%N, (js ". 1300").
Qed.

(** C1 at work: the reply and the note about the refused draft go out,
    and the state is cleared. *)
Lemma reply_flow_clears_state_witness :
  mget (JNum 5) (webhook world_draft_fails (demo_update (JNum 5)) demo_store).1.2
  = None.
Proof.
  pose proof (reply_flow_clears_state world_draft_fails (demo_update (JNum 5))
                _ _ demo_store demo_entry (demo_candidate (JNum 5)) eq_refl)
    as H.
  cbv zeta in H. destruct H as (_ & _ & H).
  change (generateReply world_draft_fails _ _) with (Reply (js "Dear Ann")) in H.
  cbv beta iota zeta in H. destruct H as [H _]. apply H.
  split; [reflexivity | left; reflexivity].
Defined.

(** C1, as stated, fails: the generator returns a reply, sending it
    fails, and the state is still there afterwards. *)
Lemma send_failure_keeps_state :
  generateReply world_send_fails demo_email demo_answers
  = Reply (js "Dear Ann") /\
  webhook world_send_fails (demo_update (JNum 5)) demo_store
  = (200%Z, demo_store,
     [CallGenerateReply demo_email demo_answers;
      CallSendMessage (JNum 5) (DraftReply (js "Dear Ann"));
      CallSendMessage (JNum 5) GenerationError]) /\
  mget (JNum 5)
    (webhook world_send_fails (demo_update (JNum 5)) demo_store).1.2
  = Some demo_entry.
Proof. vm_compute. repeat split. Qed.

Lemma sendMessage_run (w : World) (c : jsval) (notice : Notice) (m : Store) :
  let s := (sendMessage w c notice (mkH m [] 0)).2 in
  store s = m /\ trace s = [CallSendMessage c notice].
Proof.
  unfold sendMessage, log, mbind, M_bind, bind. cbn.
  by destruct (truthy c && sendOutcome w 0).
Qed.

(** C7 (amended).  For a reply to questions from a chat that has no
    entry in the map of the route, the only call is one [sendMessage]
    of the "no active email" notice to that chat: no reply is generated,
    no draft is attempted, and the map is unchanged. *)
Theorem no_entry_sends_notice (w : World) (u : Update) (msg : Message)
  (data : AnswerSet) (m : Store) :
  answer_candidate u msg data ->
  mget (chat_id msg) m = None ->
  webhook w u m = (200%Z, m, [CallSendMessage (chat_id msg) NoActiveEmail]).
Proof.
  intros Hcand Hget. rewrite (webhook_candidate w u msg data m Hcand), Hget.
  pose proof (sendMessage_run w (chat_id msg) NoActiveEmail m) as Hs.
  cbv zeta in Hs.
  destruct (sendMessage w (chat_id msg) NoActiveEmail _) as [r s].
  cbn [snd] in Hs. by destruct Hs as [-> ->].
Qed.

(** C7 at work: chat 6 has no entry. *)
Lemma no_entry_sends_notice_witness :
  webhook world_draft_fails (demo_update (JNum 6)) demo_store
  = (200%Z, demo_store, [CallSendMessage (JNum 6) NoActiveEmail]).
Proof.
  exact (no_entry_sends_notice world_draft_fails (demo_update (JNum 6)) _ _
           demo_store (demo_candidate (JNum 6)) eq_refl).
Defined.

(** C7, as stated, fails for an expired state: the map of the route has
    no expiry, so an entry registered at time 0 is found 25 hours later
    as at any other time, and the reply generator is called. *)
Lemma old_entry_still_used :
  older_than_24h 90000000 demo_entry /\
  webhook world_draft_fails (demo_update (JNum 5)) demo_store
  = (200%Z, [],
     [CallGenerateReply demo_email demo_answers;
      CallSendMessage (JNum 5) (DraftReply (js "Dear Ann"));
      CallCreateDraft (Some (js "t-1")) (Some (js "ann@example.org"))
                      (Some (js "Quote")) (js "Dear Ann");
      CallSendMessage (JNum 5) DraftNotSaved]).
Proof. split; [unfold older_than_24h; cbn; lia | vm_compute; reflexivity]. Qed.

Lemma reply_flow_correlated w c e data m :
  correlated (trace (reply_flow w c e data (mkH m [] 0)).2).
Proof.
  pose proof (reply_flow_run w c e data m) as Hrun. cbv zeta in Hrun.
  eexists _, _.
  destruct (generateReply w _ _) as [r|[message|]];
    [destruct (sent w c 0);
      [destruct (createDraft w _ _ _ r);
       [destruct (sent w c 1); [|destruct (sent w c 2)] | destruct (sent w c 1)]
      |] | |];
    destruct Hrun as [_ ->]; left; reflexivity.
Qed.

(** C9.  After a registration under the key [k], a reply from a chat
    that had no entry before reaches the reply generator exactly when
    its chat id is [k] itself, the same value of the same type; for any
    other chat id, and so for the number 123 against the string "123",
    the webhook only sends the "no active email" notice. *)
Theorem correlation_needs_identical_key (w : World) (now : Z) (k : jsval)
  (q : jsstring) (qs : list jsstring) (e : Email) (m : Store)
  (u : Update) (msg : Message) (data : AnswerSet) :
  truthy k = true ->
  answer_candidate u msg data ->
  mget (chat_id msg) m = None ->
  let registered :=
    (send_email_questions w now k (Some (q :: qs)) (Some e) m).1.2 in
  (correlated (webhook w u registered).2 <-> chat_id msg = k) /\
  (chat_id msg <> k ->
   webhook w u registered
   = (200%Z, registered, [CallSendMessage (chat_id msg) NoActiveEmail])).
Proof.
  intros Hk Hcand Hnone registered.
  assert (registered = mset k (mkActive e (q :: qs) now) m) as Hreg.
  { subst registered. unfold send_email_questions. rewrite Hk. cbn [negb].
    unfold sendMessage, log, mbind, M_bind, bind. cbn.
    by destruct (sendOutcome w 0). }
  assert (chat_id msg <> k ->
          webhook w u registered
          = (200%Z, registered, [CallSendMessage (chat_id msg) NoActiveEmail]))
    as Hother.
  { intros Hne.
    assert (mget (chat_id msg) registered = None) as Hl.
    { rewrite Hreg, mget_mset. by destruct (decide _). }
    rewrite (webhook_candidate w u msg data _ Hcand), Hl.
    pose proof (sendMessage_run w (chat_id msg) NoActiveEmail registered)
      as Hs.
    cbv zeta in Hs.
    destruct (sendMessage w (chat_id msg) NoActiveEmail _) as [r s].
    cbn [snd] in Hs. by destruct Hs as [-> ->]. }
  split; [|done]. split.
  - intros Hcor. destruct (decide (chat_id msg = k)) as [|Hne]; [done|].
    rewrite (Hother Hne) in Hcor. destruct Hcor as (em & a & [Hin|[]]).
    discriminate Hin.
  - intros Heq. rewrite (webhook_candidate w u msg data _ Hcand).
    rewrite Hreg, Heq, mget_mset. destruct (decide (k = k)); [|done].
    pose proof (reply_flow_correlated w k (mkActive e (q :: qs) now) data
                  (mset k (mkActive e (q :: qs) now) m)) as Hc.
    by destruct (reply_flow w k _ data _).
Qed.

(** C9 at work: registered under the string "123", asked for under the
    number 123. *)
Lemma correlation_needs_identical_key_witness :
  webhook world_draft_fails (demo_update (JNum 123))
    (send_email_questions world_draft_fails 0 (JStr (js "123"))
       (Some [js "How much?"]) (Some demo_email) []).1.2
  = (200%Z,
     [(JStr (js "123"), mkActive demo_email [js "How much?"] 0)],
     [CallSendMessage (JNum 123) NoActiveEmail]).
Proof.
  refine (proj2 (correlation_needs_identical_key world_draft_fails 0
                   (JStr (js "123")) (js "How much?") [] demo_email []
                   (demo_update (JNum 123)) _ _
                   eq_refl (demo_candidate (JNum 123)) eq_refl) _).
  discriminate.
Defined.

(* ================================================================= *)
(** ** Formatting questions and reading them back *)

(* decimal digits *)
Lemma js_cons a s : js (String a s) = N_of_ascii a :: js s.
Proof. reflexivity. Qed.

Lemma uint_digits u :
  forallb is_digit (js (NilEmpty.string_of_uint u)) = true.
Proof. induction u; cbn [NilEmpty.string_of_uint]; rewrite ?js_cons; cbn; done. Qed.

Lemma uint_value_acc u : forall acc,
  digits_value_from (Z.pos acc) (js (NilEmpty.string_of_uint u))
  = Z.pos (Pos.of_uint_acc u acc).
Proof.
  induction u; intros acc; cbn [NilEmpty.string_of_uint Pos.of_uint_acc];
    rewrite ?js_cons; [done|..];
    cbn [digits_value_from]; rewrite <- IHu; f_equal; cbn; lia.
Qed.

Lemma uint_value u :
  digits_value (js (NilEmpty.string_of_uint u)) = Z.of_N (Pos.of_uint u).
Proof.
  unfold digits_value.
  induction u; cbn [NilEmpty.string_of_uint Pos.of_uint]; rewrite ?js_cons;
    [done | exact IHu |..];
    cbn [digits_value_from]; cbn [N2Z.inj Z.of_N]; rewrite <- uint_value_acc;
    f_equal.
Qed.

Lemma Z_to_js_pos p :
  Z_to_js (Z.pos p) = js (NilEmpty.string_of_uint (Pos.to_uint p)).
Proof.
  unfold Z_to_js. cbn [Z.to_int NilZero.string_of_int].
  unfold NilZero.string_of_uint.
  pose proof (Unsigned.to_uint_nonnil p). by destruct (Pos.to_uint p).
Qed.

Lemma Z_to_js_digits n : (0 < n)%Z -> forallb is_digit (Z_to_js n) = true.
Proof. destruct n; try lia. intros _. rewrite Z_to_js_pos. apply uint_digits. Qed.

Lemma Z_to_js_nonempty n : (0 < n)%Z -> Z_to_js n <> [].
Proof.
  destruct n as [|p|]; try lia. intros _. rewrite Z_to_js_pos.
  pose proof (Unsigned.to_uint_nonnil p). by destruct (Pos.to_uint p).
Qed.

Lemma Z_to_js_value n : (0 < n)%Z -> digits_value (Z_to_js n) = n.
Proof.
  destruct n as [|p|]; try lia. intros _.
  by rewrite Z_to_js_pos, uint_value, Unsigned.of_to.
Qed.

Lemma split_lines_app l rest :
  forallb (fun c => negb (c =? 10)%N) l = true ->
  split_lines (l ++ 10%N :: rest) = l :: split_lines rest.
Proof.
  induction l as [|c l IH]; cbn; [done|]. intros H.
  apply andb_true_iff in H as [Hc Hl]. apply negb_true_iff in Hc.
  by rewrite Hc, (IH Hl).
Qed.

Lemma format_from_app qs : forall index acc,
  format_from index qs acc = acc ++ format_from index qs [].
Proof.
  induction qs as [|q qs IH]; intros index acc; cbn.
  - by rewrite app_nil_r.
  - rewrite (IH _ (acc ++ _)), (IH _ (numbered index q ++ _)).
    by rewrite <- !app_assoc.
Qed.

Lemma lt_free_no_newline s :
  existsb is_line_terminator s = false ->
  forallb (fun c => negb (c =? 10)%N) s = true.
Proof.
  induction s as [|c s IH]; cbn; [done|]. intros H.
  apply orb_false_iff in H as [Hc Hs]. rewrite (IH Hs), andb_true_r.
  clear -Hc. classes.
Qed.

Lemma numbered_no_newline index q :
  answer_text q ->
  forallb (fun c => negb (c =? 10)%N) (numbered index q) = true.
Proof.
  intros (_ & _ & Hlt & _). unfold numbered.
  apply forallb_forall. intros c Hc.
  apply in_app_or in Hc as [Hc|Hc]; [|apply in_app_or in Hc as [Hc|Hc]].
  - apply digit_not_newline.
    pose proof (Z_to_js_digits (Z.of_nat index + 1) ltac:(lia)) as Hd.
    rewrite forallb_forall in Hd. by apply Hd.
  - cbn in Hc. by destruct Hc as [<-|[<-|[]]].
  - pose proof (lt_free_no_newline q Hlt) as Hq.
    rewrite forallb_forall in Hq. by apply Hq.
Qed.

Lemma numbered_entry index q :
  answer_text q ->
  line_spec (numbered index q) = Some ((Z.of_nat index + 1)%Z, q).
Proof.
  intros Hq. unfold numbered.
  pose proof (line_spec_shape [] (Z_to_js (Z.of_nat index + 1)) (js ". ") q [])
    as H.
  rewrite app_nil_r in H. cbn [app] in H.
  rewrite H; [| done | done | apply Z_to_js_nonempty; lia
              | apply Z_to_js_digits; lia | done | done | done ].
  by rewrite Z_to_js_value by lia.
Qed.

Lemma fold_parse_format qs : forall index (m : AnswerSet) n,
  Forall answer_text qs ->
  fold_left parse_line (split_lines (format_from index qs [])) m !! n =
  if decide (Z.of_nat index < n <= Z.of_nat index + Z.of_nat (length qs))%Z
  then qs !! Z.to_nat (n - Z.of_nat index - 1)
  else m !! n.
Proof.
  induction qs as [|q qs IH]; intros index m n Hqs.
  - cbn. destruct (decide _); [lia | done].
  - apply Forall_cons in Hqs as [Hq Hqs].
    cbn [format_from app]. rewrite format_from_app, <- app_assoc. cbn [app].
    rewrite split_lines_app by (by apply numbered_no_newline).
    cbn [fold_left]. rewrite parse_line_spec, numbered_entry by done.
    rewrite (IH _ _ _ Hqs). cbn [length].
    destruct (decide (n = Z.of_nat index + 1)%Z) as [->|Hne].
    + rewrite lookup_insert_eq.
      destruct (decide _); [lia|]. destruct (decide _); [|lia].
      by replace (Z.of_nat index + 1 - Z.of_nat index - 1)%Z with 0%Z by lia.
    + rewrite lookup_insert_ne by done.
      destruct (decide _) as [H1|H1]; destruct (decide _) as [H2|H2]; try lia; [|done].
      replace (Z.to_nat (n - Z.of_nat index - 1))
        with (S (Z.to_nat (n - Z.of_nat (S index) - 1))) by lia.
      done.
Qed.

(** X1.  [formatNumberedQuestions] and [parseNumberedAnswers] are
    inverse to each other on lists of answer texts (not empty, starting
    with no separator character, ending in no white space, free of line
    terminators): the parsed entries of the formatted list are exactly
    the texts, each under its position counted from 1. *)
Theorem format_parse_round_trip (qs : list jsstring) (n : Z) (a : jsstring) :
  Forall answer_text qs ->
  parseNumberedAnswers (JStr (formatNumberedQuestions (Some qs))) !! n = Some a
  <-> exists i, n = (Z.of_nat i + 1)%Z /\ qs !! i = Some a.
Proof.
  intros Hqs.
  assert (parseNumberedAnswers (JStr (formatNumberedQuestions (Some qs))) !! n
          = if decide (0 < n <= Z.of_nat (length qs))%Z
            then qs !! Z.to_nat (n - 1) else None) as ->.
  { destruct qs as [|q qs]; [cbn; by destruct (decide _)|].
    unfold formatNumberedQuestions, parseNumberedAnswers.
    destruct (format_from 0 (q :: qs) []) as [|c s] eqn:E.
    { cbn [format_from app] in E. rewrite format_from_app in E.
      apply (f_equal length) in E. rewrite !length_app in E. cbn in E. lia. }
    rewrite <- E, fold_parse_format by done. rewrite lookup_empty.
    change (Z.of_nat 0) with 0%Z. rewrite Z.add_0_l, Z.sub_0_r.
    by destruct (decide _). }
  destruct (decide _) as [Hn|Hn].
  - split.
    + intros H. exists (Z.to_nat (n - 1)). split; [lia | done].
    + intros (i & -> & H). by replace (Z.to_nat (Z.of_nat i + 1 - 1)) with i by lia.
  - split; [done|]. intros (i & -> & H). apply lookup_lt_Some in H. lia.
Qed.

Lemma answer_text_intro A :
  nonempty A = true -> head_fails is_sep A ->
  existsb is_line_terminator A = false ->
  is_space (List.last A 0%N) = false -> answer_text A.
Proof. intros H1 H2 H3 H4. split_and!; try done. by destruct A. Qed.

(** X1 at work: two texts, read back under 1 and 2. *)
Lemma format_parse_round_trip_witness :
  parseNumberedAnswers
    (JStr (formatNumberedQuestions (Some [js "Yes"; js "$1300 + GST"])))
    !! 2%Z
  = Some (js "$1300 + GST").
Proof.
  apply (proj2 (format_parse_round_trip [js "Yes"; js "$1300 + GST"] 2
                  (js "$1300 + GST")
                  ltac:(repeat constructor; by apply answer_text_intro))).
  exists 1. split; reflexivity.
Defined.

(** ** What the parser lets through *)

Lemma digits_value_from_nonneg ds : forall acc,
  forallb is_digit ds = true -> (0 <= acc)%Z ->
  (0 <= digits_value_from acc ds)%Z.
Proof.
  induction ds as [|d ds IH]; intros acc Hd Hacc; cbn; [done|].
  cbn in Hd. apply andb_true_iff in Hd as [Hd Hds]. apply IH; [done|].
  assert (48 <= Z.of_N d)%Z; [|lia]. clear -Hd. classes.
Qed.

Lemma not_space_not_lt c : is_space c = false -> is_line_terminator c = false.
Proof.
  intros H. destruct (is_line_terminator c) eqn:E; [|done].
  apply lt_is_space in E. congruence.
Qed.

Lemma spec_of_clean t n a :
  (t = [] \/ exists s' c, t = s' ++ [c] /\ is_space c = false) ->
  spec_of t = Some (n, a) ->
  (0 <= n)%Z /\ a <> [] /\ trim a = a /\ existsb is_line_terminator a = false.
Proof.
  intros Ht. unfold spec_of.
  pose proof (span_app is_digit t) as E1.
  pose proof (span_app is_sep (dropWhile is_digit t)) as E2.
  pose proof (takeWhile_all is_digit t) as HD.
  pose proof (takeWhile_all is_sep (dropWhile is_digit t)) as HS.
  pose proof (dropWhile_head is_sep (dropWhile is_digit t)) as HhA.
  set (D := takeWhile is_digit t) in *.
  set (S := takeWhile is_sep (dropWhile is_digit t)) in *.
  set (A := dropWhile is_sep (dropWhile is_digit t)) in *.
  rewrite <- E2 in E1. clear E2.
  destruct D as [|d D'] eqn:ED; [done|]. rewrite <- ED in *.
  assert (D <> []) as HDne by (by rewrite ED).
  destruct Ht as [-> | (s' & c & Ht & Hc)].
  { apply app_eq_nil in E1 as [? _]. done. }
  destruct A as [|a0 A'] eqn:EA.
  - rewrite app_nil_r in E1.
    destruct S as [|s0 S'] eqn:ES.
    + rewrite app_nil_r in E1. destruct D' as [|d' D'']; [done|].
      destruct (exists_last HDne) as (D0 & x & HDx).
      rewrite HDx, removelast_last, last_last.
      intros [= <- <-].
      rewrite HDx, forallb_app in HD. apply andb_true_iff in HD as [HD0 Hx].
      cbn in Hx. rewrite andb_true_r in Hx.
      split_and!.
      * by apply digits_value_from_nonneg.
      * done.
      * apply trim_single. by apply digit_not_space.
      * cbn. rewrite orb_false_r. apply not_space_not_lt. by apply digit_not_space.
    + rewrite <- ES in *. assert (S <> []) as HSne by (by rewrite ES).
      destruct (exists_last HSne) as (S0 & x & HSx).
      assert (x = c) as ->.
      { rewrite HSx, app_assoc, Ht in E1.
        by apply last_snoc_eq in E1 as [_ ?]. }
      rewrite HSx, last_last.
      intros [= <- <-]. split_and!.
      * by apply digits_value_from_nonneg.
      * done.
      * by apply trim_single.
      * cbn. rewrite orb_false_r. by apply not_space_not_lt.
  - rewrite <- EA in *. assert (A <> []) as HAne by (by rewrite EA).
    destruct (existsb is_line_terminator A) eqn:Hlt; [done|].
    intros [= <- <-]. split_and!.
    + by apply digits_value_from_nonneg.
    + done.
    + destruct (exists_last HAne) as (A0 & x & HAx).
      assert (x = c) as ->.
      { rewrite HAx, !app_assoc, Ht in E1.
        by apply last_snoc_eq in E1 as [_ ?]. }
      rewrite EA in HhA. cbn in HhA.
      eapply (trim_id A a0 A' c); eauto using not_sep_not_space.
    + done.
Qed.

Lemma parsed_line (messageText : jsval) (n : Z) (a : jsstring) :
  parseNumberedAnswers messageText !! n = Some a ->
  exists l, line_spec l = Some (n, a).
Proof.
  intros H. unfold parseNumberedAnswers in H.
  destruct messageText as [| | | |[|c s]]; try done.
  apply fold_parse_lookup in H as [(pre & l & post & _ & Hl & _) | [H _]];
    [by exists l | done].
Qed.

(** X2.  Whatever the argument, every entry of the result of
    [parseNumberedAnswers] has a question number that is not negative
    and an answer that is not empty, has no white space at either end
    and holds no line terminator. *)
Theorem parsed_answers_clean (messageText : jsval) (n : Z) (a : jsstring) :
  parseNumberedAnswers messageText !! n = Some a ->
  (0 <= n)%Z /\ nonempty a = true /\ trim a = a /\
  existsb is_line_terminator a = false.
Proof.
  intros H. apply parsed_line in H as [l Hl].
  rewrite line_spec_eq in Hl.
  apply spec_of_clean in Hl as (Hn & Ha & Ht & Hlt); [|apply trim_shape].
  split_and!; try done. by destruct a.
Qed.

(** X2 at work: a padded line with a bracket as separator. *)
Lemma parsed_answers_clean_witness :
  (0 <= 2)%Z /\ trim (js "ok") = js "ok".
Proof.
  pose proof (parsed_answers_clean (JStr (js "  2)   ok  ")) 2 (js "ok") eq_refl)
    as (H1 & _ & H3 & _).
  split; [exact H1 | exact H3].
Defined.

(** X3.  The webhook correlates what the parser returns: for pairwise
    distinct questions, the question at position [i] is mapped to the
    parsed entry of number [i + 1] whenever there is one, and is left
    out otherwise.  The test [if (answers[answerNumber])] never drops a
    parsed answer, as a parsed answer is never empty. *)
Theorem parsed_answers_correlate (qs : list jsstring) (messageText : jsval)
  (i : nat) (q : jsstring) :
  NoDup qs -> qs !! i = Some q -> q <> js "__proto__" ->
  matchAnswersToQuestions (Some qs) (Some (parseNumberedAnswers messageText))
    !! q
  = parseNumberedAnswers messageText !! (Z.of_nat i + 1)%Z.
Proof.
  intros Hnd Hi Hq. rewrite (matchAnswersToQuestions_distinct qs _ i) by done.
  unfold answer_at.
  destruct (parseNumberedAnswers messageText !! (Z.of_nat i + 1)%Z) as [a|]
    eqn:E; [|done].
  apply parsed_line in E as [l Hl]. rewrite line_spec_eq in Hl.
  apply spec_of_clean in Hl as (_ & Ha & _); [|apply trim_shape].
  by destruct a.
Qed.

(** X3 at work: the second line answers the second question. *)
Lemma parsed_answers_correlate_witness :
  matchAnswersToQuestions (Some [js "How much?"; js "When?"])
    (Some (parseNumberedAnswers (JStr (js "2. Friday")))) !! js "When?"
  = Some (js "Friday").
Proof.
  rewrite (parsed_answers_correlate [js "How much?"; js "When?"]
             (JStr (js "2. Friday")) 1 (js "When?"));
    [ reflexivity | apply (bool_decide_unpack _); vm_compute; exact I
    | reflexivity | discriminate ].
Defined.

Lemma unnumbered_no_entry line : unnumbered line -> line_spec line = None.
Proof.
  unfold unnumbered. rewrite line_spec_eq. unfold spec_of.
  destruct (trim line) as [|c t]; [done|]. cbn. by intros ->.
Qed.

Lemma fold_parse_unnumbered ls : forall (m : AnswerSet),
  Forall unnumbered ls -> fold_left parse_line ls m = m.
Proof.
  induction ls as [|l ls IH]; intros m Hls; [done|].
  apply Forall_cons in Hls as [Hl Hls]. cbn [fold_left].
  by rewrite parse_line_spec, unnumbered_no_entry, IH.
Qed.

Lemma match_no_answers qs :
  matchAnswersToQuestions qs (Some ∅) = ∅.
Proof.
  destruct qs as [qs|]; [|done]. apply map_eq. intros q.
  rewrite lookup_empty. apply eq_None_not_Some. intros [a Ha].
  apply matchAnswersToQuestions_lookup in Ha as [_ (i & _ & Ha & _)].
  unfold answer_at in Ha. by rewrite lookup_empty in Ha.
Qed.

(** X4.  A text none of whose lines starts with a digit (after
    trimming) carries no answers: the parser returns the empty object,
    and correlation with any list of questions gives the empty object. *)
Theorem free_text_no_answers (text : jsstring)
  (qs : option (list jsstring)) :
  Forall unnumbered (split_lines text) ->
  parseNumberedAnswers (JStr text) = ∅ /\
  matchAnswersToQuestions qs (Some (parseNumberedAnswers (JStr text))) = ∅.
Proof.
  intros H.
  assert (parseNumberedAnswers (JStr text) = ∅) as E.
  { destruct text as [|c s]; [done|]. by apply fold_parse_unnumbered. }
  split; [done|]. rewrite E. apply match_no_answers.
Qed.

(** X4 at work: a reply in two lines of plain text. *)
Lemma free_text_no_answers_witness :
  parseNumberedAnswers (JStr (js "Yes." ++ [10%N] ++ js "On Friday 3pm")) = ∅.
Proof.
  apply (free_text_no_answers (js "Yes." ++ [10%N] ++ js "On Friday 3pm")
           (Some [js "When?"])).
  repeat constructor.
Defined.

(** ** The Q format *)

Section StarMore.
Context {A : Type}.
Implicit Types (k : jsstring -> option A).

Lemma star_none_in p pre r k :
  forallb p pre = true -> head_fails p r ->
  (forall pre', forallb p pre' = true -> k (pre' ++ r) = None) ->
  star p (pre ++ r) k = None.
Proof.
  intros Hpre Hr Hk. induction pre as [|c pre IH]; cbn.
  - destruct r as [|d r]; [apply (Hk []); done |].
    cbn in *. rewrite Hr. by apply (Hk []).
  - cbn in Hpre. apply andb_true_iff in Hpre as [Hc Hpre].
    rewrite Hc, (IH Hpre). apply (Hk (c :: pre)). cbn. by rewrite Hc.
Qed.

End StarMore.

Lemma colon_not_space c : is_colon c = true -> is_space c = false.
Proof. unfold is_colon. intros H. classes. Qed.

Lemma space_not_colon c : is_space c = true -> is_colon c = false.
Proof. unfold is_colon. intros H. classes. Qed.

Lemma digit_not_colon c : is_digit c = true -> is_colon c = false.
Proof. unfold is_colon. intros H. classes. Qed.

Lemma q_pattern_spec s : q_pattern s = q_spec s.
Proof.
  destruct s as [|c s]; [done|]. unfold q_pattern, q_spec. cbn [chr].
  destruct (is_q c); [|done].
  pose proof (span_app is_digit s) as E1.
  pose proof (span_app is_space (dropWhile is_digit s)) as E2.
  pose proof (takeWhile_all is_digit s) as HD.
  pose proof (takeWhile_all is_space (dropWhile is_digit s)) as HW.
  pose proof (dropWhile_head is_digit s) as HhR.
  pose proof (dropWhile_head is_space (dropWhile is_digit s)) as HhT.
  set (D := takeWhile is_digit s) in *.
  set (R := dropWhile is_digit s) in *.
  set (W := takeWhile is_space R) in *.
  set (T := dropWhile is_space R) in *.
  set (k2 := fun r1 r2 => chr is_colon r2 (fun r3 => Some (capture s r1, r3))).
  change (plus is_digit s (fun r1 => star is_space r1 (k2 r1)) =
          match D, T with
          | _ :: _, c2 :: r3 => if is_colon c2 then Some (D, r3) else None
          | _, _ => None
          end).
  destruct D as [|d D'] eqn:ED.
  { cbn in E1. rewrite <- E1. destruct R as [|x R']; [done|]. cbn in *.
    by rewrite HhR. }
  rewrite <- ED in *. rewrite <- E1 at 1. rewrite ED at 1. cbn [app plus].
  assert (is_digit d = true) as Hd.
  { rewrite ED in HD. cbn in HD. by apply andb_true_iff in HD as [? _]. }
  rewrite Hd.
  assert (forallb is_digit D' = true) as HD'.
  { rewrite ED in HD. cbn in HD. by apply andb_true_iff in HD as [_ ?]. }
  assert (forall r1, r1 <> R -> (exists x r, r1 = x :: r /\ is_digit x = true) ->
                     star is_space r1 (k2 r1) = None) as Hdig.
  { intros r1 _ (x & r & -> & Hx). cbn.
    rewrite (digit_not_space x Hx). subst k2. cbn.
    by rewrite (digit_not_colon x Hx). }
  destruct T as [|c2 r3] eqn:ET.
  - apply star_none_in; [done | done |].
    intros pre' Hpre'. destruct pre' as [|x pre'].
    + cbn [app]. rewrite <- E2. rewrite app_nil_r.
      rewrite <- (app_nil_r W). apply star_none_in; [done | done |].
      intros W' HW'. rewrite app_nil_r. subst k2. cbn.
      destruct W' as [|y W']; [done|]. cbn in *.
      apply andb_true_iff in HW' as [Hy _]. by rewrite (space_not_colon y Hy).
    + cbn in Hpre'. apply andb_true_iff in Hpre' as [Hx _].
      apply Hdig; [|by eexists _, _].
      intros E. rewrite <- E in HhR. cbn in HhR. congruence.
  - destruct (is_colon c2) eqn:Hc2.
    + apply star_all; [done | done |].
      rewrite <- E2. apply star_all; [done | by cbn; apply colon_not_space |].
      subst k2. cbn. rewrite Hc2. f_equal. f_equal.
      rewrite <- E1 at 1. by rewrite E2, capture_app.
    + apply star_none_in; [done | done |].
      intros pre' Hpre'. destruct pre' as [|x pre'].
      * cbn [app]. rewrite <- E2.
        apply star_none_in; [done | by cbn in * |].
        intros W' HW'. subst k2. cbn.
        destruct W' as [|y W']; cbn; [by rewrite Hc2|]. cbn in HW'.
        apply andb_true_iff in HW' as [Hy _]. by rewrite (space_not_colon y Hy).
      * cbn in Hpre'. apply andb_true_iff in Hpre' as [Hx _].
        apply Hdig; [|by eexists _, _].
        intros E. rewrite <- E in HhR. cbn in HhR. congruence.
Qed.

Lemma q_spec_inv s m1 rest :
  q_spec s = Some (m1, rest) ->
  exists q W,
    s = q :: m1 ++ W ++ 58%N :: rest /\ is_q q = true /\ m1 <> [] /\
    forallb is_digit m1 = true /\ forallb is_space W = true.
Proof.
  destruct s as [|c s]; [done|]. unfold q_spec.
  destruct (is_q c) eqn:Hq; [|done].
  pose proof (span_app is_digit s) as E1.
  pose proof (span_app is_space (dropWhile is_digit s)) as E2.
  pose proof (takeWhile_all is_digit s) as HD.
  pose proof (takeWhile_all is_space (dropWhile is_digit s)) as HW.
  destruct (takeWhile is_digit s) as [|d D'] eqn:ED; [done|].
  destruct (dropWhile is_space (dropWhile is_digit s)) as [|c2 r3] eqn:ET;
    [done|].
  destruct (is_colon c2) eqn:Hc2; [|done]. intros [= <- <-].
  apply N.eqb_eq in Hc2 as ->.
  exists c, (takeWhile is_space (dropWhile is_digit s)).
  split_and!; try done. f_equal. rewrite <- E1 at 1. f_equal. by rewrite <- E2 at 1.
Qed.

Lemma q_spec_match q N W rest :
  is_q q = true -> N <> [] -> forallb is_digit N = true ->
  forallb is_space W = true ->
  q_spec (q :: N ++ W ++ 58%N :: rest) = Some (N, rest).
Proof.
  intros Hq HN Hd Hw. unfold q_spec. rewrite Hq.
  assert (head_fails is_digit (W ++ 58%N :: rest)) as Hh.
  { destruct W as [|x W]; [done|]. cbn in *.
    apply andb_true_iff in Hw as [Hx _].
    destruct (is_digit x) eqn:E; [|done].
    apply digit_not_space in E. congruence. }
  rewrite takeWhile_app_all, dropWhile_app_all by done.
  rewrite dropWhile_app_all by done.
  by destruct N.
Qed.

Lemma replace_all_fuel : forall fuel1 fuel2 s,
  length s <= fuel1 -> length s <= fuel2 ->
  replace_all fuel1 s = replace_all fuel2 s.
Proof.
  induction fuel1 as [|f1 IH]; intros fuel2 s H1 H2.
  - destruct s; [|cbn in H1; lia]. by destruct fuel2.
  - destruct fuel2 as [|f2]; [destruct s; [done | cbn in H2; lia]|].
    cbn [replace_all]. destruct s as [|c s]; [done|].
    rewrite q_pattern_spec.
    destruct (q_spec (c :: s)) as [[m1 rest]|] eqn:E.
    + apply q_spec_inv in E as (q & W & Es & _ & _ & _ & _).
      apply (f_equal length) in Es. cbn in Es, H1, H2.
      rewrite !length_app in Es. cbn in Es.
      do 2 f_equal. apply IH; unfold jsstring, jschar in *; lia.
    + f_equal. cbn in H1, H2. apply IH; lia.
Qed.

Lemma replace_q_cons c s :
  replace_q (c :: s) =
  match q_spec (c :: s) with
  | Some (m1, rest) => m1 ++ js "." ++ replace_q rest
  | None => c :: replace_q s
  end.
Proof.
  unfold replace_q at 1. cbn [length replace_all]. rewrite q_pattern_spec.
  destruct (q_spec (c :: s)) as [[m1 rest]|] eqn:E.
  - apply q_spec_inv in E as (q & W & Es & _ & _ & _ & _).
    apply (f_equal length) in Es. cbn in Es.
    rewrite !length_app in Es. cbn in Es.
    do 2 f_equal. apply replace_all_fuel; unfold jsstring, jschar in *; lia.
  - done.
Qed.

Lemma dropWhile_In p (s : jsstring) x : In x (dropWhile p s) -> In x s.
Proof.
  induction s as [|c s IH]; cbn; [done|].
  destruct (p c); [auto | done].
Qed.

Lemma q_spec_no_colon s :
  existsb is_colon s = false -> q_spec s = None.
Proof.
  intros H. destruct (q_spec s) as [[m1 rest]|] eqn:E; [|done].
  apply q_spec_inv in E as (q & W & -> & _).
  cbn in H. apply orb_false_iff in H as [_ H].
  rewrite !existsb_app in H. cbn in H.
  apply orb_false_iff in H as [_ H]. apply orb_false_iff in H as [_ H].
  done.
Qed.

Lemma replace_q_no_colon s : existsb is_colon s = false -> replace_q s = s.
Proof.
  induction s as [|c s IH]; [done|]. intros H.
  rewrite replace_q_cons, q_spec_no_colon by done.
  cbn in H. apply orb_false_iff in H as [_ H]. by rewrite IH.
Qed.

Lemma replace_q_no_q s : existsb is_q s = false -> replace_q s = s.
Proof.
  induction s as [|c s IH]; [done|]. intros H.
  cbn in H. apply orb_false_iff in H as [Hc H].
  rewrite replace_q_cons. unfold q_spec. rewrite Hc. by rewrite IH.
Qed.

(** X5.  [convertQFormatToNumbered] on a string is [replace_q], which
    works from left to right: where a [Q] or [q] is followed by digits,
    any white space and a colon, the digits and a full stop are put in
    their place and the work goes on behind the colon; every other
    character is copied.  An argument that is no string is returned as
    it is. *)
Theorem convertQFormatToNumbered_equations :
  (forall s, convertQFormatToNumbered (JStr s) = JStr (replace_q s)) /\
  (forall v, (forall s, v <> JStr s) -> convertQFormatToNumbered v = v) /\
  (forall q N W rest,
     is_q q = true -> N <> [] -> forallb is_digit N = true ->
     forallb is_space W = true ->
     replace_q (q :: N ++ W ++ 58%N :: rest) = N ++ js "." ++ replace_q rest) /\
  (forall c s,
     (is_q c = false \/
      forall N W rest, N <> [] -> forallb is_digit N = true ->
        forallb is_space W = true -> s <> N ++ W ++ 58%N :: rest) ->
     replace_q (c :: s) = c :: replace_q s).
Proof.
  split_and!.
  - by intros [|c s].
  - intros v Hv. destruct v as [| | | |s]; try done. by specialize (Hv s).
  - intros q N W rest Hq HN Hd Hw.
    by rewrite replace_q_cons, q_spec_match.
  - intros c s Hs. rewrite replace_q_cons.
    destruct (q_spec (c :: s)) as [[m1 rest]|] eqn:E; [|done].
    apply q_spec_inv in E as (q & W & [= -> ->] & Hq & HN & Hd & Hw).
    destruct Hs as [Hs|Hs]; [congruence|].
    by specialize (Hs m1 W rest HN Hd Hw).
Qed.

(** X5 at work: ["Q7 :ok"]. *)
Lemma convertQFormatToNumbered_equations_witness :
  replace_q (js "Q7 :ok") = js "7." ++ replace_q (js "ok").
Proof.
  exact (proj1 (proj2 (proj2 convertQFormatToNumbered_equations))
           81%N (js "7") (js " ") (js "ok")
           eq_refl ltac:(discriminate) eq_refl eq_refl).
Defined.

Lemma replace_q_length s : length (replace_q s) <= length s.
Proof.
  assert (forall n s, length s <= n -> length (replace_q s) <= length s) as H;
    [|by apply (H (length s))].
  clear s. induction n as [|n IH]; intros s Hle.
  - destruct s; [cbn; lia | cbn in Hle; lia].
  - destruct s as [|c s]; [cbn; lia|]. rewrite replace_q_cons.
    destruct (q_spec (c :: s)) as [[m1 rest]|] eqn:E.
    + apply q_spec_inv in E as (q & W & Es & _ & _ & _ & _).
      rewrite Es in Hle |- *. cbn in Hle |- *.
      rewrite !length_app in Hle |- *. cbn in Hle |- *.
      unfold jsstring, jschar in *. specialize (IH rest ltac:(lia)).
      rewrite ?length_app. cbn [length]. lia.
    + cbn in Hle |- *. specialize (IH s ltac:(lia)). lia.
Qed.

(** X6.  [convertQFormatToNumbered] never makes a text longer, and
    returns a text without [Q] and [q], or without a colon, as it is. *)
Theorem convertQFormatToNumbered_conservative (s : jsstring) :
  length (replace_q s) <= length s /\
  (existsb is_q s = false \/ existsb is_colon s = false ->
   convertQFormatToNumbered (JStr s) = JStr s).
Proof.
  split; [apply replace_q_length|].
  intros H. destruct s as [|c s]; [done|]. cbn [convertQFormatToNumbered].
  f_equal. destruct H; [by apply replace_q_no_q | by apply replace_q_no_colon].
Qed.

(** X6 at work: a numbered answer with a time of day in it has no [Q]. *)
Lemma convertQFormatToNumbered_conservative_witness :
  convertQFormatToNumbered (JStr (js "1. at 10:30")) = JStr (js "1. at 10:30").
Proof.
  apply (proj2 (convertQFormatToNumbered_conservative (js "1. at 10:30"))).
  left. reflexivity.
Defined.

Lemma space_no_colon P : forallb is_space P = true -> existsb is_colon P = false.
Proof.
  induction P as [|c P IH]; cbn; [done|]. intros H.
  apply andb_true_iff in H as [Hc HP]. by rewrite (space_not_colon c Hc), IH.
Qed.

Lemma forallb_sep_of_space P : forallb is_space P = true -> forallb is_sep P = true.
Proof.
  induction P as [|c P IH]; cbn; [done|]. intros H.
  apply andb_true_iff in H as [Hc HP]. by rewrite (space_is_sep c Hc), IH.
Qed.

(** X7.  The Q format is read like the numbered format: a one-line
    answer [Q<N>: <answer>] (white space allowed before and behind the
    colon, none of it a line terminator behind the colon, no colon in
    the answer), once converted, is parsed into the single entry
    [N -> answer]. *)
Theorem q_format_line_parsed (q : jschar) (N W P A : jsstring) :
  is_q q = true -> N <> [] -> forallb is_digit N = true ->
  (digits_value N <= MAX_SAFE_INTEGER)%Z ->
  forallb is_space W = true ->
  forallb is_space P = true -> existsb is_line_terminator P = false ->
  answer_text A -> existsb is_colon A = false ->
  match convertQFormatToNumbered (JStr (q :: N ++ W ++ 58%N :: P ++ A)) with
  | JStr s => s = N ++ js "." ++ P ++ A
  | _ => False
  end /\
  parseNumberedAnswers
    (convertQFormatToNumbered (JStr (q :: N ++ W ++ 58%N :: P ++ A)))
  = {[ digits_value N := A ]}.
Proof.
  intros Hq HN Hd _ Hw Hp Hplt HA Hcolon.
  assert (convertQFormatToNumbered (JStr (q :: N ++ W ++ 58%N :: P ++ A))
          = JStr (N ++ js "." ++ P ++ A)) as ->.
  { cbn [convertQFormatToNumbered]. f_equal.
    rewrite replace_q_cons, q_spec_match by done.
    rewrite replace_q_no_colon; [done|].
    by rewrite existsb_app, space_no_colon, Hcolon. }
  split; [done|].
  pose proof HA as (_ & _ & Hlt & _).
  unfold parseNumberedAnswers.
  destruct (N ++ js "." ++ P ++ A) as [|c0 s0] eqn:E; [by destruct N|].
  rewrite <- E. clear E c0 s0.
  rewrite split_lines_single.
  2:{ rewrite !forallb_app. apply andb_true_iff. split.
      - apply forallb_forall. intros x Hx. apply digit_not_newline.
        rewrite forallb_forall in Hd. by apply Hd.
      - apply andb_true_iff. split; [done|]. apply andb_true_iff.
        split; by apply lt_free_no_newline. }
  cbn [fold_left]. rewrite parse_line_spec.
  pose proof (line_spec_shape [] N (js "." ++ P) A []) as H.
  rewrite app_nil_r in H. cbn [app] in H.
  replace (N ++ js "." ++ P ++ A) with (N ++ (js "." ++ P) ++ A)
    by (by rewrite <- app_assoc).
  rewrite H; [by rewrite insert_empty | done | done | done | done | | done | done].
  cbn. by apply forallb_sep_of_space.
Qed.

(** X7 at work: ["Q2 : Friday afternoon"]. *)
Lemma q_format_line_parsed_witness :
  parseNumberedAnswers
    (convertQFormatToNumbered (JStr (js "Q2 : Friday afternoon")))
  = {[ 2%Z := js "Friday afternoon" ]}.
Proof.
  apply (q_format_line_parsed 81%N (js "2") (js " ") (js " ")
           (js "Friday afternoon"));
    [ reflexivity | discriminate | reflexivity | intros H; discriminate H
    | reflexivity | reflexivity | reflexivity
    | by apply answer_text_intro | reflexivity ].
Defined.

(* ================================================================= *)
(** ** The email state manager: storing, reading, clearing, listing *)

Lemma Z_to_js_neg p :
  Z_to_js (Z.neg p) = 45%N :: js (NilEmpty.string_of_uint (Pos.to_uint p)).
Proof.
  unfold Z_to_js. cbn [Z.to_int NilZero.string_of_int]. rewrite js_cons.
  f_equal. unfold NilZero.string_of_uint.
  pose proof (Unsigned.to_uint_nonnil p). by destruct (Pos.to_uint p).
Qed.

Lemma uint_nonempty u : u <> Decimal.Nil -> js (NilEmpty.string_of_uint u) <> [].
Proof. by destruct u. Qed.

(** [parseInt(String(n), 10)] is [n]. *)
Lemma parseInt10_Z_to_js n : parseInt10 (Z_to_js n) = Some n.
Proof.
  destruct n as [|p|p].
  - reflexivity.
  - rewrite parseInt10_digits;
      [ by rewrite Z_to_js_value | by apply Z_to_js_nonempty
      | by apply Z_to_js_digits ].
  - rewrite Z_to_js_neg. unfold parseInt10, trimStart. cbn [dropWhile].
    change (is_space 45%N) with false. cbn [N.eqb Pos.eqb].
    pose proof (uint_digits (Pos.to_uint p)) as Hd.
    pose proof (uint_nonempty _ (Unsigned.to_uint_nonnil p)) as Hne.
    rewrite <- (app_nil_r (js _)), takeWhile_app_all by done.
    destruct (js (NilEmpty.string_of_uint (Pos.to_uint p))) as [|d ds] eqn:E;
      [done|].
    rewrite <- E, uint_value, Unsigned.of_to. f_equal.
Qed.

Lemma Z_to_js_inj n m : Z_to_js n = Z_to_js m -> n = m.
Proof.
  intros H. apply (f_equal parseInt10) in H.
  rewrite !parseInt10_Z_to_js in H. congruence.
Qed.

Lemma Z_to_js_truthy n : truthy (JStr (Z_to_js n)) = true.
Proof.
  pose proof (parseInt10_Z_to_js n) as H.
  destruct (Z_to_js n) as [|c s]; [discriminate H | done].
Qed.

Section MapMore.
Context {K V : Type} `{EqDecision K}.
Implicit Types (m : list (K * V)).



End MapMore.

Section EmailStateMore.
Import EmailState.

Lemma storeEmail_run now chatId r st :
  truthy chatId = true ->
  storeEmail now chatId (Some r) st =
  mkState (mset (String_ chatId) r (activeEmails st))
          (alter (stamp now) r (heap st)).
Proof. intros H. unfold storeEmail. by rewrite H. Qed.

Lemma getEmail_run now chatId st :
  truthy chatId = true ->
  getEmail now chatId st =
  match mget (String_ chatId) (activeEmails st) with
  | None => (None, st)
  | Some r =>
      if expired now st r
      then (None, mkState (mdelete (String_ chatId) (activeEmails st)) (heap st))
      else (Some r, st)
  end.
Proof. intros H. unfold getEmail. by rewrite H. Qed.

(** X8.  What [storeEmail] has stored, [getEmail] returns for 24 hours:
    the object is stamped with the time of the call, and a read of the
    same chat returns it, leaving the state as it is, as long as no more
    than 24 hours have passed (exactly 24 hours included); after that
    the read returns nothing. *)
Theorem storeEmail_getEmail (now now' : Z) (chatId : jsval) (r : ref)
  (d : EmailData) (st : State) :
  truthy chatId = true -> heap st !! r = Some d ->
  let st1 := storeEmail now chatId (Some r) st in
  heap st1 !! r = Some (stamp now d) /\
  ((now' - now <= expiryTime)%Z -> getEmail now' chatId st1 = (Some r, st1)) /\
  ((now' - now > expiryTime)%Z -> (getEmail now' chatId st1).1 = None).
Proof.
  intros Hc Hd st1.
  assert (heap st1 !! r = Some (stamp now d)) as Hh.
  { subst st1. rewrite storeEmail_run by done. cbn.
    by rewrite lookup_alter_eq, Hd. }
  assert (mget (String_ chatId) (activeEmails st1) = Some r) as Hg.
  { subst st1. rewrite storeEmail_run by done. cbn.
    rewrite mget_mset. by destruct (decide _). }
  split; [done|].
  rewrite getEmail_run, Hg by done. unfold expired, timestamp_of.
  rewrite Hh. cbn [timestamp stamp].
  destruct (Z.gtb_spec (now' - now) expiryTime); split; intros; (done || lia).
Qed.

Lemma demo_state_heap :
  heap demo_state !! 1%N = Some (mkEmailData None [js "When?"] (Some 1000%Z)).
Proof. reflexivity. Qed.

(** X8 at work: stored at 5000 ms, read 24 hours later to the
    millisecond. *)
Lemma storeEmail_getEmail_witness :
  getEmail 86405000 (JNum 7) (storeEmail 5000 (JNum 7) (Some 1%N) demo_state)
  = (Some 1%N, storeEmail 5000 (JNum 7) (Some 1%N) demo_state).
Proof.
  apply (storeEmail_getEmail 5000 86405000 (JNum 7) 1%N _ demo_state
           eq_refl demo_state_heap).
  intros H; discriminate H.
Defined.



(** X10.  The manager keys its map by [String(chatId)].  For chat ids
    within the safe integers: a chat id given as a number other than 0
    and the same id given as its decimal string read the same state,
    and two numeric chat ids share an entry only if they are the same
    number, so that storing for one chat adds or replaces no entry of
    another. *)
Theorem chat_keys_normalised :
  (forall now n st, n <> 0%Z -> (Z.abs n <= MAX_SAFE_INTEGER)%Z ->
     getEmail now (JStr (Z_to_js n)) st = getEmail now (JNum n) st) /\
  (forall n m,
     (Z.abs n <= MAX_SAFE_INTEGER)%Z -> (Z.abs m <= MAX_SAFE_INTEGER)%Z ->
     String_ (JNum n) = String_ (JNum m) -> n = m) /\
  (forall now n m d st,
     (Z.abs n <= MAX_SAFE_INTEGER)%Z -> (Z.abs m <= MAX_SAFE_INTEGER)%Z ->
     n <> m ->
     mget (String_ (JNum m)) (activeEmails (storeEmail now (JNum n) d st))
     = mget (String_ (JNum m)) (activeEmails st)).
Proof.
  split_and!.
  - intros now n st Hn _. unfold getEmail. rewrite Z_to_js_truthy. cbn.
    by destruct (Z.eqb_spec n 0).
  - intros n m _ _. apply Z_to_js_inj.
  - intros now n m d st _ _ Hne. unfold storeEmail.
    destruct d as [r|]; [|done]. destruct (truthy (JNum n)); [|done]. cbn.
    rewrite mget_mset. destruct (decide _) as [E|]; [|done].
    apply Z_to_js_inj in E. congruence.
Qed.

(** X10 at work: chat 42 read under the string ["42"]. *)
Lemma chat_keys_normalised_witness :
  getEmail 2000 (JStr (js "42")) demo_state = getEmail 2000 (JNum 42) demo_state.
Proof.
  refine (proj1 chat_keys_normalised 2000%Z 42%Z demo_state _ _).
  - discriminate.
  - intros Hgt; discriminate Hgt.
Defined.

(** X11.  The map holds the caller's objects, not copies: when one
    object is stored for a second chat, its time stamp is overwritten,
    and the 24 hours of the first chat are counted from the second
    call. *)
Theorem shared_object_restamped (t1 t2 now : Z) (a b : jsval) (r : ref)
  (d : EmailData) (st : State) :
  truthy a = true -> truthy b = true -> String_ a <> String_ b ->
  heap st !! r = Some d ->
  let st2 := storeEmail t2 b (Some r) (storeEmail t1 a (Some r) st) in
  timestamp_of st2 r = Some t2 /\
  (getEmail now a st2).1 = (if (now - t2 >? expiryTime)%Z then None else Some r).
Proof.
  intros Ha Hb Hne Hd st2.
  assert (timestamp_of st2 r = Some t2) as Hts.
  { subst st2. rewrite !storeEmail_run by done. unfold timestamp_of. cbn.
    by rewrite !lookup_alter_eq, Hd. }
  split; [done|]. rewrite getEmail_run by done.
  assert (mget (String_ a) (activeEmails st2) = Some r) as ->.
  { subst st2. rewrite !storeEmail_run by done. cbn.
    rewrite !mget_mset. destruct (decide _); [done|]. by destruct (decide _). }
  unfold expired. rewrite Hts. by destruct (now - t2 >? expiryTime)%Z.
Qed.

(** X11 at work: one object stored for chat 7 at 0 ms and for chat 8 a
    day later; chat 7 is read two days after its own call. *)
Lemma shared_object_restamped_witness :
  (getEmail 172800000 (JNum 7)
     (storeEmail 86400000 (JNum 8) (Some 1%N)
        (storeEmail 0 (JNum 7) (Some 1%N) demo_state))).1 = Some 1%N.
Proof.
  exact (proj2 (shared_object_restamped 0 86400000 172800000 (JNum 7) (JNum 8)
                  1%N _ demo_state eq_refl eq_refl ltac:(discriminate)
                  demo_state_heap)).
Defined.

Lemma round_minutes_bounds ms :
  (60000 * round_minutes ms - 30000 <= ms < 60000 * round_minutes ms + 30000)%Z.
Proof.
  unfold round_minutes.
  pose proof (Z.div_mod (2 * ms + 60000) 120000 ltac:(lia)) as H.
  pose proof (Z.mod_pos_bound (2 * ms + 60000) 120000 ltac:(lia)) as H'.
  lia.
Qed.

(** X12.  [listActiveEmails] gives one summary per entry of the map, in
    the order of insertion; after any sequence of calls no chat is
    listed twice; and the age given for an entry is its true age
    rounded to the minute: within 30 seconds of it, the half minute
    rounded up. *)
Theorem listActiveEmails_summaries (now : Z) (st0 : State) (ops : list op) :
  List.NoDup (keys (activeEmails st0)) ->
  let st := fold_left exec ops st0 in
  List.map s_chatId (listActiveEmails now st) = keys (activeEmails st) /\
  List.NoDup (List.map s_chatId (listActiveEmails now st)) /\
  (forall s age, In s (listActiveEmails now st) -> s_age s = Some age ->
     exists ts, s_timestamp s = Some ts /\
       (60000 * age - 30000 <= now - ts < 60000 * age + 30000)%Z).
Proof.
  intros Hnd st.
  assert (List.map s_chatId (listActiveEmails now st) = keys (activeEmails st))
    as E.
  { unfold listActiveEmails, keys. rewrite List.map_map.
    by apply List.map_ext. }
  split_and!; [done | |].
  - rewrite E. by apply run_NoDup.
  - intros s age Hs Hage. unfold listActiveEmails in Hs.
    apply List.in_map_iff in Hs as (e & <- & _). cbn in *.
    destruct (timestamp_of st e.2) as [ts|]; [|done].
    injection Hage as <-. exists ts. split; [done|]. apply round_minutes_bounds.
Qed.

Lemma demo_state_NoDup : List.NoDup (keys (activeEmails demo_state)).
Proof. repeat constructor. by intros []. Qed.

(** X12 at work: the object of chat 42 is stored again for chat 7 at
    61 s; at 100 s both chats are listed with an age of 1 minute. *)
Lemma listActiveEmails_summaries_witness :
  List.map s_chatId
    (listActiveEmails 100000
       (fold_left exec [OpStore 61000 (JNum 7) (Some 1%N)] demo_state))
  = [js "42"; js "7"] /\
  exists ts, Some 61000%Z = Some ts /\
    (60000 * 1 - 30000 <= 100000 - ts < 60000 * 1 + 30000)%Z.
Proof.
  pose proof (listActiveEmails_summaries 100000 demo_state
                [OpStore 61000 (JNum 7) (Some 1%N)] demo_state_NoDup)
    as (H1 & _ & H3).
  split; [exact H1|].
  exact (H3 (mkSummary (js "42") None (Some 61000%Z) (Some 1%Z)) 1%Z
            (or_introl eq_refl) eq_refl).
Defined.

End EmailStateMore.

(* ================================================================= *)
(** ** The polling loop: cursor, dispatch, back-off and restart *)

Lemma fold_max_spec us : forall z0,
  let z := fold_left (fun m x => Z.max m (update_id x)) us z0 in
  (z0 <= z)%Z /\ (forall x, In x us -> (update_id x <= z)%Z) /\
  (z = z0 \/ exists x, In x us /\ z = update_id x).
Proof.
  induction us as [|y us IH]; intros z0; cbn.
  - split_and!; [lia | done | by left].
  - destruct (IH (Z.max z0 (update_id y))) as (H1 & H2 & H3).
    split_and!; [lia | |].
    + intros x [<-|Hx]; [lia | by apply H2].
    + destruct H3 as [H3 | (x & Hx & H3)].
      * destruct (Z.max_spec z0 (update_id y)) as [[_ E]|[_ E]].
        -- right. exists y. split; [by left | lia].
        -- left. lia.
      * right. exists x. split; [by right | done].
Qed.

Lemma max_update_id_spec u us :
  (forall x, In x (u :: us) -> (update_id x <= max_update_id u us)%Z) /\
  (exists x, In x (u :: us) /\ max_update_id u us = update_id x).
Proof.
  unfold max_update_id.
  destruct (fold_max_spec us (update_id u)) as (H1 & H2 & H3). split.
  - intros x [<-|Hx]; [done | by apply H2].
  - destruct H3 as [H3 | (x & Hx & H3)].
    + exists u. split; [by left | done].
    + exists x. split; [by right | done].
Qed.

Section PollingMore.
Context {H : Type}.
Variable handleUpdate : Update -> H -> H * Outcome.
Variable interval : Q.

(** X13.  A fetched batch is acknowledged as a whole before any of its
    updates is handled: after the run the cursor is the largest update
    id of the batch, whatever it was before and whatever the handler
    did, so that the offset of the next request lies behind every
    update of the batch; an empty batch leaves the cursor where it
    is. *)
Theorem batch_is_acknowledged (st st' : PollState) (h h' : H)
  (updates seen : list Update) (j random : Q) (n : Next) :
  isPollingActive st = true ->
  pollOnce handleUpdate interval st h (FetchResult updates) j
  = (st', h', seen, n) ->
  (forall x, In x updates -> (update_id x < (getUpdates_query st' random).1)%Z) /\
  (updates <> [] ->
   exists x, In x updates /\ lastUpdateId st' = update_id x) /\
  (updates = [] -> lastUpdateId st' = lastUpdateId st).
Proof.
  intros Ha Hrun.
  assert (lastUpdateId st' =
          match updates with
          | [] => lastUpdateId st
          | u :: us => max_update_id u us
          end) as E.
  { unfold pollOnce in Hrun. rewrite Ha in Hrun. cbn [negb] in Hrun.
    destruct updates as [|u us]; [by injection Hrun as <- _ _ _|].
    cbn [getUpdates] in Hrun.
    destruct (process_updates handleUpdate (u :: us) h) as [[h1 seen1] fin].
    by injection Hrun as <- _ _ _. }
  unfold getUpdates_query. cbn [fst]. rewrite E.
  destruct updates as [|u us].
  - split_and!; done.
  - destruct (max_update_id_spec u us) as [Hle Hex]. split_and!; [|done|done].
    intros x Hx. specialize (Hle x Hx). lia.
Qed.

End PollingMore.

(** X13 at work: the batch of ids 5, 9, 7 moves the cursor from 0 to 9
    and the next offset to 10. *)
Lemma batch_is_acknowledged_witness : (update_id (upd 7) < 10)%Z.
Proof.
  exact (proj1 (batch_is_acknowledged
                  (fun (_ : Update) (h : unit) => (h, Resolved)) 2000%Q
                  started (mkPoll 9 true 0 5000%Q) tt tt
                  [upd 5; upd 9; upd 7] [upd 5; upd 9; upd 7] 0%Q 0%Q
                  (Reschedule 2000%Q) eq_refl eq_refl)
           (upd 7) (or_intror (or_intror (or_introl eq_refl)))).
Defined.

Section PollingRuns.
Context {H : Type}.
Variable handleUpdate : Update -> H -> H * Outcome.
Variable interval : Q.

(** X14.  The loop hands the updates of a batch to the handler in the
    order received, each once, threading the handler's state; what it
    has handed over is a prefix of the batch, and the whole batch when
    the loop ran to its end; it stops early only behind an update whose
    handler rejected with [null] or [undefined]. *)
Theorem process_updates_in_order (updates : list Update) :
  forall (h h' : H) (seen : list Update) (finished : bool),
  process_updates handleUpdate updates h = (h', seen, finished) ->
  h' = fold_left (fun h u => (handleUpdate u h).1) seen h /\
  (exists rest, updates = seen ++ rest) /\
  (finished = true -> seen = updates) /\
  (finished = false ->
   exists pre u, seen = pre ++ [u] /\
     (handleUpdate u (fold_left (fun h u => (handleUpdate u h).1) pre h)).2
     = Rejected Nullish).
Proof.
  induction updates as [|u us IH]; intros h h' seen finished Hrun.
  - cbn in Hrun. injection Hrun as <- <- <-.
    split_and!; [done | by exists [] | done | done].
  - cbn [process_updates] in Hrun.
    destruct (handleUpdate u h) as [h1 o] eqn:Eu.
    assert (h1 = (handleUpdate u h).1) as Eh1 by (by rewrite Eu).
    destruct o as [|[m|]].
    1,2: destruct (process_updates handleUpdate us h1) as [[h2 seen2] fin2]
           eqn:Erest;
         injection Hrun as <- <- <-;
         destruct (IH h1 h2 seen2 fin2 Erest) as (Hh & [rest Hrest] & Hfin & Hnot);
         (split_and!;
          [ cbn [fold_left]; by rewrite <- Eh1
          | exists rest; by rewrite Hrest
          | intros Hf; by rewrite (Hfin Hf)
          | intros Hf; destruct (Hnot Hf) as (pre & x & -> & Hx);
            exists (u :: pre), x; split; [done|];
            cbn [fold_left]; by rewrite <- Eh1 ]).
    injection Hrun as <- <- <-. split_and!.
    + cbn. by rewrite Eu.
    + by exists us.
    + done.
    + intros _. exists [], u. split; [done|]. cbn. by rewrite Eu.
Qed.

Lemma count_conflicts_cons message j errors :
  count_conflicts ((message, j) :: errors) =
  (if is_conflict message then 1 else 0) + count_conflicts errors.
Proof. unfold count_conflicts. cbn. by destruct (is_conflict message). Qed.

Lemma pollOnce_failure st h message j :
  isPollingActive st = true ->
  pollOnce handleUpdate interval st h (FetchThrows message) j =
  if is_conflict message
  then let '(st', n) := on_conflict st j in (st', h, [], n)
  else (st, h, [], Reschedule interval).
Proof. intros Ha. unfold pollOnce. rewrite Ha. cbn. done. Qed.

(** Failed fetches with no more than ten conflicts among them, counted
    with those before: the loop goes on behind each of them, and the
    counter has gone up by the number of conflicts. *)
Lemma run_failures errors : forall st h,
  isPollingActive st = true -> (0 <= retryCount st)%Z ->
  (retryCount st + Z.of_nat (count_conflicts errors) <= 10)%Z ->
  exists st' ns,
    (forall more,
       run handleUpdate interval st h (conflicts errors ++ more) =
       let '(a, b, c) := run handleUpdate interval st' h more in
       (a, b, ns ++ c)) /\
    isPollingActive st' = true /\
    retryCount st' = (retryCount st + Z.of_nat (count_conflicts errors))%Z /\
    lastUpdateId st' = lastUpdateId st /\
    length ns = length errors /\ Forall goes_on ns.
Proof.
  induction errors as [|[message j] es IH]; intros st h Ha H0 Hle.
  - exists st, []. split_and!; try done; [|unfold count_conflicts; cbn; lia].
    intros more. cbn. by destruct (run handleUpdate interval st h more) as [[? ?] ?].
  - rewrite count_conflicts_cons in Hle |- *.
    destruct (is_conflict message) eqn:Hc.
    + set (st1 := mkPoll (lastUpdateId st) (isPollingActive st)
                    (retryCount st + 1)
                    (Qmin 60000 (retryDelay st * (3 # 2)) + j)%Q).
      destruct (IH st1 h) as (st' & ns & Hrun & Ha' & Hrc & Hid & Hlen & Hgo);
        [done | cbn; lia | cbn; lia |].
      exists st', (Backoff (retryDelay st1) :: ns).
      split_and!; [ | done | rewrite Hrc; cbn; lia | done | cbn; by rewrite Hlen
                  | constructor; [done | done] ].
      intros more. cbn [conflicts List.map app run fst snd].
      rewrite pollOnce_failure, Hc by done. unfold on_conflict.
      destruct (Z.gtb_spec (retryCount st + 1) 10) as [Hgt|_]; [lia|].
      fold st1. fold (conflicts es). rewrite Hrun.
      by destruct (run handleUpdate interval st' h more) as [[? ?] ?].
    + destruct (IH st h) as (st' & ns & Hrun & Ha' & Hrc & Hid & Hlen & Hgo);
        [done | done | lia |].
      exists st', (Reschedule interval :: ns).
      split_and!; [ | done | rewrite Hrc; lia | done | cbn; by rewrite Hlen
                  | constructor; [done | done] ].
      intros more. cbn [conflicts List.map app run fst snd].
      rewrite pollOnce_failure, Hc by done.
      fold (conflicts es). rewrite Hrun.
      by destruct (run handleUpdate interval st' h more) as [[? ?] ?].
Qed.

(** X15.  The conflicts that make the loop stand down need not follow
    one another: fetches that fail for other reasons in between are
    retried at the regular interval and leave the counter as it is.
    After failed fetches with ten conflicts among them, in any
    positions, the next conflict stops the loop: nothing is scheduled
    any more, no update was handled, and the cursor has not moved. *)
Theorem scattered_conflicts_stop (errors : list (jsstring * Q))
  (message : jsstring) (j : Q) (more : list (Fetch * Q))
  (st : PollState) (h : H) :
  isPollingActive st = true -> retryCount st = 0%Z ->
  count_conflicts errors = 10 -> is_conflict message = true ->
  exists st' ns,
    run handleUpdate interval st h
        (conflicts (errors ++ [(message, j)]) ++ more)
    = (st', h, ns ++ [Stop]) /\
    length ns = length errors /\ Forall goes_on ns /\
    isPollingActive st' = false /\ retryCount st' = 11%Z /\
    lastUpdateId st' = lastUpdateId st.
Proof.
  intros Ha Hrc Hcount Hc.
  destruct (run_failures errors st h) as (st1 & ns & Hrun & Ha1 & Hrc1 & Hid & Hlen & Hgo);
    [done | lia | lia |].
  unfold conflicts. rewrite List.map_app, <- app_assoc. fold (conflicts errors).
  rewrite Hrun. cbn [List.map app run fst snd].
  rewrite pollOnce_failure, Hc by done. unfold on_conflict.
  rewrite Hrc1, Hrc, Hcount. cbn.
  eexists _, ns. split; [reflexivity|]. cbn. by split_and!.
Qed.

Lemma Qmin_bounds d :
  (5000 <= d)%Q ->
  (7500 <= Qmin 60000 (d * (3 # 2)))%Q /\ (Qmin 60000 (d * (3 # 2)) <= 60000)%Q.
Proof.
  intros Hd. split; [apply Q.min_glb; lra | apply Q.le_min_l].
Qed.

Lemma pollOnce_delay st h f j st' h' seen n :
  jitter_ok j -> delay_ok st ->
  pollOnce handleUpdate interval st h f j = (st', h', seen, n) ->
  delay_ok st' /\
  match n with
  | Backoff d => (7500 <= d)%Q /\ (d < 61000)%Q
  | Reschedule d => d = interval
  | _ => True
  end.
Proof.
  intros [Hj0 Hj1] [Hd0 Hd1] Hrun. unfold pollOnce in Hrun.
  destruct (isPollingActive st); cbn [negb] in Hrun;
    [|by injection Hrun as <- <- <- <-].
  destruct f as [message|updates]; cbn [getUpdates] in Hrun.
  - destruct (is_conflict message).
    + unfold on_conflict in Hrun.
      destruct (Qmin_bounds (retryDelay st) Hd0) as [Hm0 Hm1].
      destruct (retryCount st + 1 >? 10)%Z; injection Hrun as <- <- <- <-;
        (split; [split; cbn; lra | try done]). cbn. split; lra.
    + by injection Hrun as <- <- <- <-.
  - assert (delay_ok (mkPoll (lastUpdateId (getUpdates st (FetchResult updates)).1)
                        (isPollingActive (getUpdates st (FetchResult updates)).1)
                        0 5000%Q)) as Hok by (split; cbn; lra).
    destruct updates as [|u us]; cbn [getUpdates fst] in *.
    + cbn in Hrun. by injection Hrun as <- <- <- <-.
    + destruct (process_updates handleUpdate (u :: us) h) as [[h1 seen1] fin].
      by injection Hrun as <- <- <- <-.
Qed.

(** X16.  However the fetches turn out, the delay kept between two
    conflicts stays in its range: from a state whose delay is between
    5 seconds and 61 seconds, with every jitter in [0, 1000), every
    back-off of a run waits at least 7.5 seconds and less than 61
    seconds, every other call is scheduled at the regular interval, and
    the delay is in its range again afterwards. *)
Theorem backoff_delay_bounds (inputs : list (Fetch * Q)) :
  forall (st st' : PollState) (h h' : H) (ns : list Next),
  Forall (fun i => jitter_ok i.2) inputs -> delay_ok st ->
  run handleUpdate interval st h inputs = (st', h', ns) ->
  delay_ok st' /\
  (forall d, In (Backoff d) ns -> (7500 <= d)%Q /\ (d < 61000)%Q) /\
  (forall d, In (Reschedule d) ns -> d = interval).
Proof.
  induction inputs as [|[f j] rest IH]; intros st st' h h' ns Hj Hok Hrun.
  - cbn in Hrun. injection Hrun as <- <- <-. split_and!; [done | done | done].
  - apply Forall_cons in Hj as [Hj Hjs]. cbn [run] in Hrun.
    destruct (pollOnce handleUpdate interval st h f j) as [[[st1 h1] seen] n]
      eqn:Ep.
    destruct (pollOnce_delay st h f j st1 h1 seen n Hj Hok Ep) as [Hok1 Hn].
    destruct n as [|d|d|].
    1,4: injection Hrun as <- <- <-;
         (split_and!; [done | intros d [Hd|[]]; discriminate Hd
                       | intros d [Hd|[]]; discriminate Hd]).
    all: destruct (run handleUpdate interval st1 h1 rest) as [[st2 h2] ns2]
           eqn:Er;
         injection Hrun as <- <- <-;
         destruct (IH st1 st2 h1 h2 ns2 Hjs Hok1 Er) as (Hok2 & Hb & Hr);
         (split_and!; [done | | ]).
    + intros d' [Hd|Hd]; [discriminate Hd | by apply Hb].
    + intros d' [Hd|Hd]; [by injection Hd as <- | by apply Hr].
    + intros d' [Hd|Hd]; [by injection Hd as <- | by apply Hb].
    + intros d' [Hd|Hd]; [discriminate Hd | by apply Hr].
Qed.


End PollingRuns.

(** X14 at work: the handler that rejects update 1 with [undefined]
    has seen a prefix of the batch. *)
Lemma process_updates_in_order_witness :
  exists rest, [upd 1; upd 2; upd 3] = [upd 1] ++ rest.
Proof.
  exact (proj1 (proj2 (process_updates_in_order rejecting_handler
                         [upd 1; upd 2; upd 3] [] [1%Z] [upd 1] false
                         eq_refl))).
Defined.

Lemma demo_scattered :
  count_conflicts (take 5 demo_errors ++ [(js "ETIMEDOUT", 0%Q)]
                   ++ drop 6 demo_errors) = 10.
Proof. reflexivity. Qed.

(** X15 at work: five conflicts, a timeout, five more conflicts, and
    the conflict that stops the loop. *)
Lemma scattered_conflicts_stop_witness :
  exists st' ns,
    run (fun (_ : Update) (h : unit) => (h, Resolved)) 2000%Q started tt
        (conflicts ((take 5 demo_errors ++ [(js "ETIMEDOUT", 0%Q)]
                     ++ drop 6 demo_errors) ++ [(conflict_text, 0%Q)]) ++ [])
    = (st', tt, ns ++ [Stop]) /\ length ns = 11.
Proof.
  destruct (scattered_conflicts_stop
              (fun (_ : Update) (h : unit) => (h, Resolved)) 2000%Q
              (take 5 demo_errors ++ [(js "ETIMEDOUT", 0%Q)]
               ++ drop 6 demo_errors)
              conflict_text 0%Q [] started tt
              eq_refl eq_refl demo_scattered eq_refl)
    as (st' & ns & Hrun & Hlen & _).
  exists st', ns. split; [exact Hrun | exact Hlen].
Defined.

(** X16 at work: the first conflict after a start, with a jitter of
    half a second, waits 8 seconds. *)
Lemma backoff_delay_bounds_witness :
  (7500 <= Qmin 60000 (5000 * (3 # 2)) + 500)%Q /\
  (Qmin 60000 (5000 * (3 # 2)) + 500 < 61000)%Q.
Proof.
  refine (proj1 (proj2 (backoff_delay_bounds
                   (fun (_ : Update) (h : unit) => (h, Resolved)) 2000%Q
                   [(FetchThrows conflict_text, 500%Q)]
                   started
                   (mkPoll 0 true 1 (Qmin 60000 (5000 * (3 # 2)) + 500)%Q)
                   tt tt [Backoff (Qmin 60000 (5000 * (3 # 2)) + 500)%Q]
                   _ _ eq_refl)) _ _).
  - repeat constructor; cbn; unfold jitter_ok; lra.
  - unfold delay_ok, started; cbn; lra.
  - by left.
Defined.


(** X18.  The long-poll timeout of a request is 1 or 2 seconds, 2 in
    the upper half of the random range, and its offset is one above the
    cursor. *)
Theorem request_query (st : PollState) (random : Q) :
  (0 <= random)%Q -> (random < 1)%Q ->
  (getUpdates_query st random).1 = (lastUpdateId st + 1)%Z /\
  ((getUpdates_query st random).2 = 1%Z \/ (getUpdates_query st random).2 = 2%Z) /\
  ((getUpdates_query st random).2 = 2%Z <-> (1 # 2 <= random)%Q).
Proof.
  intros H0 H1. unfold getUpdates_query. cbn [fst snd].
  pose proof (Qfloor_le (random * 2)) as Hlo.
  pose proof (Qlt_floor (random * 2)) as Hhi.
  set (f := Qfloor (random * 2)) in *.
  assert (0 <= f < 2)%Z as Hf.
  { split.
    - assert (inject_Z 0 < inject_Z (f + 1))%Q as Hlt
        by (change (inject_Z 0) with 0%Q; lra).
      rewrite <- Zlt_Qlt in Hlt. lia.
    - assert (inject_Z f < inject_Z 2)%Q as Hlt
        by (change (inject_Z 2) with 2%Q; lra).
      by rewrite <- Zlt_Qlt in Hlt. }
  split_and!; [done | lia |]. split.
  - intros Hf2. assert (f = 1%Z) as E by lia. rewrite E in Hlo.
    change (inject_Z 1) with 1%Q in Hlo. lra.
  - intros Hr. assert (~ (f < 1)%Z) as Hn; [|lia].
    intros Hlt. assert (f = 0%Z) as E by lia. rewrite E in Hhi.
    change (inject_Z (0 + 1)) with 1%Q in Hhi. lra.
Qed.

(** X18 at work: a random value of 3/4. *)
Lemma request_query_witness : (getUpdates_query started (3 # 4)).2 = 2%Z.
Proof.
  apply (proj2 (proj2 (request_query started (3 # 4) ltac:(lra) ltac:(lra)))).
  lra.
Defined.

(* ================================================================= *)
(** ** Commands *)

Lemma split_space_length s :
  length (split_space s) = S (length (List.filter (fun c => (c =? 32)%N) s)).
Proof.
  induction s as [|c s IH]; [done|]. cbn [split_space List.filter].
  destruct (c =? 32)%N; cbn [length]; [by rewrite IH|].
  by destruct (split_space s).
Qed.

Lemma split_space_join s : join_space (split_space s) = s.
Proof.
  induction s as [|c s IH]; [done|]. cbn [split_space].
  pose proof (split_space_length s) as Hlen.
  destruct (split_space s) as [|p ps]; [done|].
  destruct (c =? 32)%N eqn:E.
  - apply N.eqb_eq in E as ->. cbn in *. f_equal. exact IH.
  - cbn in *. f_equal. exact IH.
Qed.

Lemma split_space_no_space s :
  Forall (fun p => ~ In 32%N p) (split_space s).
Proof.
  induction s as [|c s IH]; cbn [split_space].
  - constructor; [by intros [] | done].
  - destruct (c =? 32)%N eqn:E.
    + constructor; [by intros [] | done].
    + apply N.eqb_neq in E.
      destruct (split_space s) as [|p ps].
      * constructor; [|done]. by intros [?|[]].
      * apply Forall_cons in IH as [Hp Hps]. constructor; [|done].
        intros [?|?]; [done | by apply Hp].
Qed.

(** X19.  [handleCommandMessage] accepts exactly the messages whose
    text starts with [/].  The text behind the [/] is cut at every
    space: the command is the lower case of the first piece, the
    arguments are the other pieces, one per space of the text; no piece
    holds a space, and the pieces joined by spaces give the text back. *)
Theorem handleCommandMessage_pieces (toLowerCase : jsstring -> jsstring)
  (msg : Message) (fullCommand : jsstring) :
  text msg = Some (47%N :: fullCommand) ->
  exists p,
    handleCommandMessage toLowerCase (Some msg)
    = Some (mkCommand (toLowerCase p) (List.tl (split_space fullCommand))) /\
    split_space fullCommand = p :: List.tl (split_space fullCommand) /\
    join_space (split_space fullCommand) = fullCommand /\
    Forall (fun a => ~ In 32%N a) (split_space fullCommand) /\
    length (List.tl (split_space fullCommand))
    = length (List.filter (fun c => (c =? 32)%N) fullCommand).
Proof.
  intros Ht. unfold handleCommandMessage. rewrite Ht. cbn [N.eqb Pos.eqb].
  pose proof (split_space_length fullCommand) as Hlen.
  pose proof (split_space_join fullCommand) as Hjoin.
  pose proof (split_space_no_space fullCommand) as Hsp.
  destruct (split_space fullCommand) as [|p parts]; [done|].
  exists p. cbn [List.tl]. split_and!; try done. cbn in Hlen. lia.
Qed.

(** X19 at work: ["/Start  now"] has an empty argument between its two
    spaces. *)
Lemma handleCommandMessage_pieces_witness :
  exists p,
    handleCommandMessage (fun s => s)
      (Some (mkMessage (JNum 5) (Some (js "/Start  now")) (JNum 9)))
    = Some (mkCommand p [[]; js "now"]).
Proof.
  destruct (handleCommandMessage_pieces (fun s => s)
              (mkMessage (JNum 5) (Some (js "/Start  now")) (JNum 9))
              (js "Start  now") eq_refl) as (p & H & _).
  exists p. exact H.
Defined.

(* ================================================================= *)
(** ** The webhook: what it calls and what it keeps *)

Ltac flow_cases w c r :=
  destruct (sent w c 0) eqn:?;
    [ destruct (createDraft w _ _ _ r) eqn:?;
      [ destruct (sent w c 1) eqn:?; [|destruct (sent w c 2) eqn:?]
      | destruct (sent w c 1) eqn:? ]
    | ].

Lemma webhook_invalid w u m : update_id u = 0%Z -> webhook w u m = (400%Z, m, []).
Proof. intros H. unfold webhook. by rewrite H. Qed.

Lemma webhook_plain w u m :
  update_id u <> 0%Z -> plain_update u -> webhook w u m = (200%Z, m, []).
Proof.
  intros Hid Hp. unfold webhook. apply Z.eqb_neq in Hid. rewrite Hid.
  unfold webhook_body, plain_update in *.
  destruct (message u) as [msg|]; [|done].
  unfold handleIncomingMessage.
  destruct (text msg) as [[|c s]|]; [done | | done].
  cbn [or_default startsWith_slash]. by rewrite Hp.
Qed.

Lemma update_cases u :
  update_id u = 0%Z \/ (update_id u <> 0%Z /\ plain_update u) \/
  exists msg data, answer_candidate u msg data.
Proof.
  destruct (decide (update_id u = 0%Z)) as [|Hid]; [by left|]. right.
  unfold plain_update, answer_candidate.
  destruct (message u) as [msg|]; [|by left].
  destruct (text msg) as [[|c s]|] eqn:Ht; [by left | | by left].
  destruct (c =? 47)%N eqn:Hc; [by left|].
  right. exists msg, (parseNumberedAnswers (JStr (c :: s))).
  split_and!; [done | done |]. by exists c, s.
Qed.

Lemma webhook_stored w u msg data m e :
  answer_candidate u msg data -> mget (chat_id msg) m = Some e ->
  webhook w u m =
  (200%Z, store (reply_flow w (chat_id msg) e data (mkH m [] 0)).2,
   trace (reply_flow w (chat_id msg) e data (mkH m [] 0)).2).
Proof.
  intros Hcand Hget. rewrite (webhook_candidate w u msg data m Hcand), Hget.
  by destruct (reply_flow w (chat_id msg) e data _).
Qed.

Lemma webhook_no_entry w u msg data m :
  answer_candidate u msg data -> mget (chat_id msg) m = None ->
  webhook w u m = (200%Z, m, [CallSendMessage (chat_id msg) NoActiveEmail]).
Proof.
  intros Hcand Hget. rewrite (webhook_candidate w u msg data m Hcand), Hget.
  pose proof (sendMessage_run w (chat_id msg) NoActiveEmail m) as Hs.
  cbv zeta in Hs.
  destruct (sendMessage w (chat_id msg) NoActiveEmail _) as [r s].
  cbn [snd] in Hs. by destruct Hs as [-> ->].
Qed.

(** X20.  An update that is no reply to questions (no message, no
    text, or a command) is acknowledged and nothing else: no message is
    sent, no reply generated, no draft attempted, and the map of stored
    emails is left as it is; an update without an id is refused in the
    same way. *)
Theorem plain_update_is_inert (w : World) (u : Update) (m : Store) :
  plain_update u ->
  webhook w u m = (if (update_id u =? 0)%Z then 400%Z else 200%Z, m, []).
Proof.
  intros Hp. destruct (Z.eqb_spec (update_id u) 0) as [Hid|Hid].
  - by apply webhook_invalid.
  - by apply webhook_plain.
Qed.

(** X20 at work: the command [/start] from a chat with a stored email. *)
Lemma plain_update_is_inert_witness :
  webhook world_draft_fails
    (mkUpdate 7 (Some (mkMessage (JNum 5) (Some (js "/start")) (JNum 9))))
    demo_store
  = (200%Z, demo_store, []).
Proof.
  exact (plain_update_is_inert world_draft_fails
           (mkUpdate 7 (Some (mkMessage (JNum 5) (Some (js "/start")) (JNum 9))))
           demo_store eq_refl).
Defined.

(** X21.  Whatever the update and however the collaborators answer,
    one run of the webhook calls the reply generator at most once and
    calls [createDraft] at most once, makes no more than six calls, and
    sends messages to the chat of the update only.  [createDraft] is
    called only as the third call, behind the generator and the message
    that shows the reply to the user, when that message went out; its
    arguments are, in this order, the thread id, the sender and the
    subject of the stored email and the generated reply.  Nothing is
    said of a draft being saved: when the call rejects, the next call
    is the message that the draft could not be saved, and the message
    that it has been saved is never sent. *)
Theorem webhook_call_discipline (w : World) (u : Update) (m : Store) :
  let tr := (webhook w u m).2 in
  length (List.filter is_generate tr) <= 1 /\
  length (List.filter is_draft tr) <= 1 /\
  length tr <= 6 /\
  (forall c n, In (CallSendMessage c n) tr ->
     exists msg, message u = Some msg /\ c = chat_id msg) /\
  (forall t s sub r, In (CallCreateDraft t s sub r) tr ->
     exists em ans c,
       take 3 tr = [CallGenerateReply em ans; CallSendMessage c (DraftReply r);
                    CallCreateDraft t s sub r] /\
       generateReply w em ans = Reply r /\ sent w c 0 = true /\
       t = threadId em /\ s = sender em /\ sub = subject em /\
       (createDraft w t s sub r = false ->
        tr !! 3 = Some (CallSendMessage c DraftNotSaved) /\
        forall c', ~ In (CallSendMessage c' DraftSaved) tr)).
Proof.
  intros tr. subst tr.
  destruct (update_cases u) as [Hid | [[Hid Hp] | (msg & data & Hcand)]].
  - rewrite webhook_invalid by done. cbn.
    split_and!; [lia | lia | lia | by intros | by intros].
  - rewrite webhook_plain by done. cbn.
    split_and!; [lia | lia | lia | by intros | by intros].
  - pose proof Hcand as (_ & Hmsg & _).
    destruct (mget (chat_id msg) m) as [e|] eqn:Hget.
    + rewrite (webhook_stored w u msg data m e Hcand Hget). cbn [snd].
      pose proof (reply_flow_run w (chat_id msg) e data m) as Hrun.
      cbv zeta in Hrun.
      set (c := chat_id msg) in *.
      set (em := ensure_fields (originalEmail e)) in *.
      set (ans := matchAnswersToQuestions (Some (questions e)) (Some data)) in *.
      assert (c = chat_id msg) as Hc by done. clearbody c em ans.
      destruct (generateReply w em ans) as [r|[message|]] eqn:Hgen;
        [flow_cases w c r | |];
        destruct Hrun as [_ ->]; cbn; (split_and!; [lia | lia | lia | |]);
        try (intros c' n Hin; exists msg; split; [done|];
             repeat (destruct Hin as [Hin|Hin]; [try discriminate Hin|]);
             try done; injection Hin as <- _; exact Hc);
        intros t s sub r' Hin;
        repeat (destruct Hin as [Hin|Hin]; [try discriminate Hin|]);
        try done;
        injection Hin as <- <- <- <-; exists em, ans, c;
        (split_and!; try done);
        intros Hrej; try congruence;
        (split; [done|]); intros c' Hin';
        repeat (destruct Hin' as [Hin'|Hin']; [try discriminate Hin'|]);
        done.
    + rewrite (webhook_no_entry w u msg data m Hcand Hget). cbn.
      split_and!; [lia | lia | lia | |].
      * intros c n [Hin|[]]. exists msg. split; [done|]. by injection Hin as <- _.
      * intros t s sub r [Hin|[]]. discriminate Hin.
Qed.

(** X21 at work: the reply shown to chat 5 was sent to the chat of the
    update. *)
Lemma webhook_call_discipline_witness :
  exists msg, message (demo_update (JNum 5)) = Some msg /\
              JNum 5 = chat_id msg.
Proof.
  pose proof (webhook_call_discipline world_draft_fails (demo_update (JNum 5))
                demo_store) as H.
  cbv zeta in H. destruct H as (_ & _ & _ & H & _).
  exact (H (JNum 5) (DraftReply (js "Dear Ann")) (or_intror (or_introl eq_refl))).
Defined.

(** X22.  An inbound update never creates stored state and never
    touches the state of another chat: a chat without an entry has none
    afterwards, every chat other than the one of the update keeps its
    entry, and the entry of the chat of the update is afterwards either
    gone, or as it was, or as it was with the missing fields of its
    email filled in: the questions and the registration time are never
    changed. *)
Theorem webhook_store_discipline (w : World) (u : Update) (m : Store) :
  let m' := (webhook w u m).1.2 in
  (forall k, mget k m = None -> mget k m' = None) /\
  (forall k, (forall msg, message u = Some msg -> k <> chat_id msg) ->
     mget k m' = mget k m) /\
  (forall msg e, message u = Some msg -> mget (chat_id msg) m = Some e ->
     mget (chat_id msg) m' = None \/ mget (chat_id msg) m' = Some e \/
     mget (chat_id msg) m' = Some (kept_entry e)).
Proof.
  intros m'. subst m'.
  destruct (update_cases u) as [Hid | [[Hid Hp] | (msg & data & Hcand)]].
  - rewrite webhook_invalid by done. cbn. split_and!; auto.
  - rewrite webhook_plain by done. cbn. split_and!; auto.
  - pose proof Hcand as (_ & Hmsg & _).
    destruct (mget (chat_id msg) m) as [e|] eqn:Hget.
    + rewrite (webhook_stored w u msg data m e Hcand Hget). cbn [fst snd].
      pose proof (reply_flow_run w (chat_id msg) e data m) as Hrun.
      cbv zeta in Hrun. fold (kept_entry e) in Hrun.
      set (c := chat_id msg) in *.
      assert (store (reply_flow w c e data (mkH m [] 0)).2
              = mset c (kept_entry e) m \/
              store (reply_flow w c e data (mkH m [] 0)).2
              = mdelete c (mset c (kept_entry e) m)) as Hst.
      { destruct (generateReply w _ _) as [r|[message|]];
          [flow_cases w c r | |]; destruct Hrun as [-> _]; auto. }
      clear Hrun. assert (c = chat_id msg) as Hc by done. clearbody c.
      split_and!.
      * intros k Hk. destruct Hst as [-> | ->];
          rewrite ?mget_mdelete, mget_mset;
          repeat destruct (decide _); congruence.
      * intros k Hk. specialize (Hk msg Hmsg). rewrite <- Hc in Hk.
        destruct Hst as [-> | ->];
          rewrite ?mget_mdelete, mget_mset;
          repeat destruct (decide _); congruence.
      * intros msg' e' Hmsg' Hget'.
        assert (msg' = msg) as -> by congruence. rewrite <- Hc in *.
        assert (e' = e) as -> by congruence.
        destruct Hst as [-> | ->]; rewrite ?mget_mdelete, mget_mset;
          repeat destruct (decide _); auto; congruence.
    + rewrite (webhook_no_entry w u msg data m Hcand Hget). cbn.
      split_and!; auto.
Qed.

(** X22 at work: chat 6 has no entry and gets none by sending a reply. *)
Lemma webhook_store_discipline_witness :
  mget (JNum 6)
    (webhook world_draft_fails (demo_update (JNum 6)) demo_store).1.2 = None.
Proof.
  exact (proj1 (webhook_store_discipline world_draft_fails
                  (demo_update (JNum 6)) demo_store) (JNum 6) eq_refl).
Defined.

Lemma ensure_fields_eq e :
  ensure_fields e =
  mkEmail (Some (or_default (subject e) (js "[No Subject]")))
          (Some (or_default (body e) []))
          (Some (or_default (sender e) (js "[Unknown Sender]")))
          (threadId e).
Proof.
  unfold ensure_fields. destruct e as [[[|c1 s1]|] [[|c2 s2]|] [[|c3 s3]|] t];
    reflexivity.
Qed.

(** X23.  "Ensure required fields are present" always yields the same
    email whether or not it finds a field missing: subject and sender as
    they are, or their placeholders when they are missing or empty, the
    body as it is, or the empty text, and the thread id untouched.  The
    result has a subject and a sender that are not empty, and filling in
    twice is the same as filling in once. *)
Theorem ensure_fields_complete (e : Email) :
  ensure_fields e =
    mkEmail (Some (or_default (subject e) (js "[No Subject]")))
            (Some (or_default (body e) []))
            (Some (or_default (sender e) (js "[Unknown Sender]")))
            (threadId e) /\
  truthy_field (subject (ensure_fields e)) = true /\
  truthy_field (sender (ensure_fields e)) = true /\
  ensure_fields (ensure_fields e) = ensure_fields e.
Proof.
  split; [apply ensure_fields_eq|].
  destruct e as [[[|c1 s1]|] [[|c2 s2]|] [[|c3 s3]|] t]; by split_and!.
Qed.

Lemma ensure_fields_idem e : ensure_fields (ensure_fields e) = ensure_fields e.
Proof.
  destruct e as [[[|c1 s1]|] [[|c2 s2]|] [[|c3 s3]|] t]; reflexivity.
Qed.

(** X24.  A failed generation can be tried again: when the generator
    rejects, the entry of the chat stays, and the same reply sent once
    more reaches the generator with the same email and the same
    answers, however the collaborators answer the second time. *)
Theorem failed_generation_retried (w w' : World) (u : Update) (msg : Message)
  (data : AnswerSet) (m : Store) (e : ActiveEmail) (reason : Thrown) :
  answer_candidate u msg data ->
  mget (chat_id msg) m = Some e ->
  let email := ensure_fields (originalEmail e) in
  let answers := matchAnswersToQuestions (Some (questions e)) (Some data) in
  generateReply w email answers = Rejects reason ->
  let m1 := (webhook w u m).1.2 in
  mget (chat_id msg) m1 = Some (kept_entry e) /\
  head (webhook w' u m1).2 = Some (CallGenerateReply email answers).
Proof.
  intros Hcand Hget email answers Hgen m1.
  assert (m1 = mset (chat_id msg) (kept_entry e) m) as Hm1.
  { subst m1. rewrite (webhook_stored w u msg data m e Hcand Hget). cbn [fst snd].
    pose proof (reply_flow_run w (chat_id msg) e data m) as Hrun.
    cbv zeta in Hrun. fold email answers in Hrun. rewrite Hgen in Hrun.
    by destruct reason; destruct Hrun as [-> _]. }
  assert (mget (chat_id msg) m1 = Some (kept_entry e)) as Hget1.
  { rewrite Hm1, mget_mset. by destruct (decide _). }
  split; [done|].
  rewrite (webhook_stored w' u msg data m1 _ Hcand Hget1). cbn [snd].
  pose proof (reply_flow_run w' (chat_id msg) (kept_entry e) data m1) as Hrun.
  cbv zeta in Hrun.
  assert (ensure_fields (originalEmail (kept_entry e)) = email) as Ee.
  { subst email. unfold kept_entry. cbn.
    apply ensure_fields_idem. }
  rewrite Ee in Hrun. change (questions (kept_entry e)) with (questions e) in Hrun.
  fold answers in Hrun.
  set (c := chat_id msg) in *.
  destruct (generateReply w' email answers) as [r|[message|]];
    [flow_cases w' c r | |]; by destruct Hrun as [_ ->].
Qed.

(** X24 at work: the generator times out for chat 5; the same reply
    sent again reaches the generator with the same question answered. *)
Lemma failed_generation_retried_witness :
  head (webhook world_draft_fails (demo_update (JNum 5))
          (webhook world_generator_fails (demo_update (JNum 5)) demo_store).1.2).2
  = Some (CallGenerateReply demo_email demo_answers).
Proof.
  exact (proj2 (failed_generation_retried world_generator_fails
                  world_draft_fails (demo_update (JNum 5)) _ _ demo_store
                  demo_entry (ErrorObject (js "timeout"))
                  (demo_candidate (JNum 5)) eq_refl eq_refl)).
Defined.

(** X25.  A stored email is used for one reply: once the reply has been
    generated and shown to the user and the message about the draft has
    gone out, the entry of the chat is gone, and the next reply from
    that chat is answered with the "no active email" notice and nothing
    else, until new questions are registered. *)
Theorem answered_email_is_used_up (w w' : World) (u u' : Update)
  (msg msg' : Message) (data data' : AnswerSet) (m : Store) (e : ActiveEmail)
  (r : jsstring) :
  answer_candidate u msg data -> mget (chat_id msg) m = Some e ->
  generateReply w (ensure_fields (originalEmail e))
    (matchAnswersToQuestions (Some (questions e)) (Some data)) = Reply r ->
  sent w (chat_id msg) 0 = true -> sent w (chat_id msg) 1 = true ->
  answer_candidate u' msg' data' -> chat_id msg' = chat_id msg ->
  let m1 := (webhook w u m).1.2 in
  webhook w' u' m1
  = (200%Z, m1, [CallSendMessage (chat_id msg) NoActiveEmail]).
Proof.
  intros Hcand Hget Hgen Hs0 Hs1 Hcand' Hchat m1.
  assert (mget (chat_id msg') m1 = None) as Hnone.
  { subst m1. rewrite (webhook_stored w u msg data m e Hcand Hget). cbn [fst snd].
    pose proof (reply_flow_run w (chat_id msg) e data m) as Hrun.
    cbv zeta in Hrun. rewrite Hgen, Hs0, Hs1 in Hrun.
    rewrite Hchat.
    destruct (createDraft w _ _ _ r); destruct Hrun as [-> _];
      rewrite mget_mdelete; by destruct (decide _). }
  rewrite (webhook_no_entry w' u' msg' data' m1 Hcand' Hnone). by rewrite Hchat.
Qed.

(** X25 at work: chat 5 sends its reply twice. *)
Lemma answered_email_is_used_up_witness :
  webhook world_draft_fails (demo_update (JNum 5))
    (webhook world_draft_fails (demo_update (JNum 5)) demo_store).1.2
  = (200%Z, (webhook world_draft_fails (demo_update (JNum 5)) demo_store).1.2,
     [CallSendMessage (JNum 5) NoActiveEmail]).
Proof.
  exact (answered_email_is_used_up world_draft_fails world_draft_fails
           (demo_update (JNum 5)) (demo_update (JNum 5)) _ _ _ _
           demo_store demo_entry (js "Dear Ann")
           (demo_candidate (JNum 5)) eq_refl eq_refl eq_refl eq_refl
           (demo_candidate (JNum 5)) eq_refl).
Defined.

(** X26.  A reply in free text is passed on without answers: when no
    line of the text starts with a digit, the reply generator is called
    with the stored email and an empty object of answers. *)
Theorem free_text_reply_generates (w : World) (u : Update) (msg : Message)
  (data : AnswerSet) (m : Store) (e : ActiveEmail) (t : jsstring) :
  answer_candidate u msg data -> mget (chat_id msg) m = Some e ->
  text msg = Some t -> Forall unnumbered (split_lines t) ->
  head (webhook w u m).2
  = Some (CallGenerateReply (ensure_fields (originalEmail e)) ∅).
Proof.
  intros Hcand Hget Ht Hlines.
  assert (data = ∅) as ->.
  { destruct Hcand as (_ & _ & c & s & Ht' & _ & ->).
    assert (t = c :: s) as <- by congruence.
    destruct t as [|c0 s0]; [done|]. by apply fold_parse_unnumbered. }
  rewrite (webhook_stored w u msg ∅ m e Hcand Hget). cbn [snd].
  pose proof (reply_flow_run w (chat_id msg) e ∅ m) as Hrun.
  cbv zeta in Hrun. rewrite match_no_answers in Hrun.
  set (c := chat_id msg) in *.
  destruct (generateReply w _ ∅) as [r|[message|]];
    [flow_cases w c r | |]; by destruct Hrun as [_ ->].
Qed.

Lemma free_text_candidate :
  answer_candidate
    (mkUpdate 8 (Some (mkMessage (JNum 5) (Some (js "Yes, on Friday")) (JNum 9))))
    (mkMessage (JNum 5) (Some (js "Yes, on Friday")) (JNum 9))
    (parseNumberedAnswers (JStr (js "Yes, on Friday"))).
Proof.
  split; [done|]. split; [done|]. by exists 89%N, (js "es, on Friday").
Qed.

(** X26 at work: ["Yes, on Friday"] from chat 5. *)
Lemma free_text_reply_generates_witness :
  head (webhook world_draft_fails
          (mkUpdate 8
             (Some (mkMessage (JNum 5) (Some (js "Yes, on Friday")) (JNum 9))))
          demo_store).2
  = Some (CallGenerateReply demo_email ∅).
Proof.
  refine (free_text_reply_generates world_draft_fails _ _ _ demo_store
            demo_entry (js "Yes, on Friday") free_text_candidate eq_refl
            eq_refl _).
  repeat constructor.
Defined.

(** X27.  POST /send-email-questions registers before it sends: with a
    chat id, at least one question and an email, the entry of the chat
    is set (replacing an older one) and one message with the questions
    is sent; the answer is 200 when the message went out and 500 when
    it did not, and in both cases the entry stays, so that a reply from
    the chat is correlated.  Without a chat id, without questions or
    without an email the answer is 400 and nothing happens. *)
Theorem registration_precedes_send (w : World) (now : Z) (chatId : jsval)
  (q : jsstring) (qs : list jsstring) (e : Email) (m : Store) :
  (truthy chatId = true ->
   send_email_questions w now chatId (Some (q :: qs)) (Some e) m
   = (if sent w chatId 0 then 200%Z else 500%Z,
      mset chatId (mkActive e (q :: qs) now) m,
      [CallSendMessage chatId (EmailQuestions (q :: qs) e)]) /\
   mget chatId
     (send_email_questions w now chatId (Some (q :: qs)) (Some e) m).1.2
   = Some (mkActive e (q :: qs) now)) /\
  (forall questions email,
     truthy chatId = false \/ questions = None \/ questions = Some [] \/
     email = None ->
     send_email_questions w now chatId questions email m = (400%Z, m, [])).
Proof.
  split.
  - intros Hc.
    assert (send_email_questions w now chatId (Some (q :: qs)) (Some e) m
            = (if sent w chatId 0 then 200%Z else 500%Z,
               mset chatId (mkActive e (q :: qs) now) m,
               [CallSendMessage chatId (EmailQuestions (q :: qs) e)])) as E.
    { unfold send_email_questions, sent. rewrite Hc. cbn [negb].
      unfold sendMessage, log, mbind, M_bind, bind. cbn. rewrite Hc. cbn.
      by destruct (sendOutcome w 0). }
    split; [done|]. rewrite E. cbn. rewrite mget_mset. by destruct (decide _).
  - intros questions email Hbad. unfold send_email_questions.
    destruct questions as [[|q0 qs0]|]; [done | | done].
    destruct email as [e0|]; [|done].
    destruct Hbad as [Hc | [? | [? | ?]]]; try done. by rewrite Hc.
Qed.

(** X27 at work: the provider refuses the message, the registration for
    chat 5 stays. *)
Lemma registration_precedes_send_witness :
  send_email_questions world_send_fails 0 (JNum 5)
    (Some [js "When?"]) (Some demo_email) []
  = (500%Z, [(JNum 5, mkActive demo_email [js "When?"] 0)],
     [CallSendMessage (JNum 5) (EmailQuestions [js "When?"] demo_email)]).
Proof.
  exact (proj1 (proj1 (registration_precedes_send world_send_fails 0 (JNum 5)
                         (js "When?") [] demo_email []) eq_refl)).
Defined.
